(** * The streaming completion engine of shell_gpt

    A shallow embedding of [sgpt/handlers/handler.py] (the provider gateway
    [get_provider_completion], [Handler.handle_function_call] and
    [Handler.get_completion]) and of the tool-schema resolution of
    [sgpt/app.py], followed by the properties the specification states
    about them.

    Python generators are modelled by their full drain: a [yield] appends
    a fragment to the [yielded] field of the state, in order.  The message
    list is one shared Python list that the handler mutates in place; it is
    a field of the state, so that what a failing call leaves behind stays
    visible.  Calls to collaborators (configuration, provider, function
    registry, stream connection) are recorded in an event log. *)

From Stdlib Require Import ZArith Ascii String.
From stdpp Require Import base option list strings gmap.

Local Open Scope string_scope.
Local Open Scope list_scope.
Local Open Scope stdpp_scope.

(** ** Python values the handler looks at *)

(** The exceptions that can travel through the handler. *)
Inductive PyError :=
| KeyboardInterrupt
| JSONDecodeError (doc : string)      (* json.loads: [doc] is the text being parsed *)
| AttributeError
| TypeError
| ValueError
| FunctionNotFound (name : string)    (* raised by the function registry *)
| ProviderError.                      (* raised by the provider call or its transport *)

Inductive Result (A : Type) :=
| Ok (a : A)
| Raise (e : PyError).
Arguments Ok {A} a.
Arguments Raise {A} e.

(** A key of a LiteLLM dict may be missing, present with [None], or present
    with a value.  An attribute of an OpenAI (pydantic) object is never
    missing: it is [PyNone] or [Present]. *)
Inductive field (A : Type) :=
| Absent
| PyNone
| Present (a : A).
Arguments Absent {A}.
Arguments PyNone {A}.
Arguments Present {A} a.

(** [x or d] on an optional string: the empty string is falsy too. *)
Definition str_or (x : field string) (d : string) : string :=
  match x with
  | Present s => if decide (s = EmptyString) then d else s
  | _ => d
  end.

Record FunctionDelta := {
  fn_name : field string;
  fn_arguments : field string;
}.

Record ToolCallDelta := {
  tc_id : field string;
  tc_function : field FunctionDelta;
}.

Record Delta := {
  content : option string;
  tool_calls : list ToolCallDelta;      (* [None] and [[]] are both falsy *)
}.

Record Choice := {
  delta : Delta;
  finish_reason : option string;
}.

Record Chunk := { choices : list Choice }.

(** What iterating the response gives next: a chunk, or an exception raised
    while waiting for one (an interrupt, a transport error). *)
Inductive StreamItem :=
| Item (chunk : Chunk)
| Throw (e : PyError).

Abbreviation Response := (list StreamItem).

(** ** Messages *)

Record ToolCall := {
  call_id : string;
  call_type : string;
  call_name : string;
  call_arguments : string;
}.

Record Message := {
  role : string;
  msg_content : option string;
  msg_tool_calls : option (list ToolCall);
  msg_tool_call_id : option string;
}.

Definition assistant_message (tool_call_id name arguments : string) : Message :=
  {| role := "assistant";
     msg_content := None;
     msg_tool_calls :=
       Some [ {| call_id := tool_call_id; call_type := "function";
                 call_name := name; call_arguments := arguments |} ];
     msg_tool_call_id := None |}.

Definition tool_message (result tool_call_id : string) : Message :=
  {| role := "tool";
     msg_content := Some result;
     msg_tool_calls := None;
     msg_tool_call_id := Some tool_call_id |}.

(** ** Tool-call accumulation (handler.py, lines 119 and 149-164) *)

Record Acc := {
  acc_id : string;
  acc_name : string;
  acc_arguments : string;
}.

(** [tool_call_id = name = arguments = ""] *)
Definition acc0 : Acc :=
  {| acc_id := EmptyString; acc_name := EmptyString; acc_arguments := EmptyString |}.

(** The LiteLLM branch reads dicts:
    [tool_call.get("id") or tool_call_id],
    [tool_call.get("function", {}).get("name") or name],
    [arguments += tool_call.get("function", {}).get("arguments", "")]. *)
Definition accumulate_litellm (acc : Acc) (tc : ToolCallDelta) : Result Acc :=
  let tool_call_id := str_or (tc_id tc) (acc_id acc) in
  match tc_function tc with
  | PyNone => Raise AttributeError                   (* None.get *)
  | Absent =>                                        (* the default {} *)
      Ok {| acc_id := tool_call_id; acc_name := acc_name acc;
            acc_arguments := acc_arguments acc +:+ EmptyString |}
  | Present f =>
      let name := str_or (fn_name f) (acc_name acc) in
      match fn_arguments f with
      | Absent => Ok {| acc_id := tool_call_id; acc_name := name;
                        acc_arguments := acc_arguments acc +:+ EmptyString |}
      | PyNone => Raise TypeError                    (* str += None *)
      | Present a => Ok {| acc_id := tool_call_id; acc_name := name;
                           acc_arguments := acc_arguments acc +:+ a |}
      end
  end.

(** The OpenAI branch reads attributes:
    [tool_call.id or tool_call_id], [tool_call.function.name or name],
    [arguments += tool_call.function.arguments or ""]. *)
Definition accumulate_openai (acc : Acc) (tc : ToolCallDelta) : Result Acc :=
  let tool_call_id := str_or (tc_id tc) (acc_id acc) in
  match tc_function tc with
  | Present f =>
      Ok {| acc_id := tool_call_id;
            acc_name := str_or (fn_name f) (acc_name acc);
            acc_arguments := acc_arguments acc +:+ str_or (fn_arguments f) EmptyString |}
  | _ => Raise AttributeError                        (* None.name *)
  end.

Definition accumulate (use_litellm : bool) (acc : Acc) (tc : ToolCallDelta) : Result Acc :=
  if use_litellm then accumulate_litellm acc tc else accumulate_openai acc tc.

(** [for tool_call in tool_calls: ...] *)
Fixpoint accumulate_all (use_litellm : bool) (tcs : list ToolCallDelta) (acc : Acc)
  : Result Acc :=
  match tcs with
  | [] => Ok acc
  | tc :: tcs' =>
      match accumulate use_litellm acc tc with
      | Ok acc' => accumulate_all use_litellm tcs' acc'
      | Raise e => Raise e
      end
  end.

(** ** Text the handler builds *)

Definition nl : string := String "010"%char EmptyString.
Definition dquote : string := String "034"%char EmptyString.

(** [content or ""] *)
Definition content_or_empty (c : option string) : string :=
  match c with
  | Some s => s
  | None => EmptyString
  end.

(** [chunk.choices[0].finish_reason == "tool_calls"] *)
Definition is_tool_calls (fr : option string) : bool :=
  bool_decide (fr = Some "tool_calls").

(** The text a caller gets by joining the fragments it was given. *)
Definition full_text (frags : list string) : string :=
  foldr String.append EmptyString frags.

(** ** Vocabulary for the accumulation of tool-call deltas *)

(** What a delta contributes: its id, name and arguments fragment, empty
    when it brings none. *)
Definition delta_id (tc : ToolCallDelta) : string :=
  str_or (tc_id tc) EmptyString.

Definition delta_name (tc : ToolCallDelta) : string :=
  match tc_function tc with
  | Present f => str_or (fn_name f) EmptyString
  | _ => EmptyString
  end.

Definition delta_arguments (tc : ToolCallDelta) : string :=
  match tc_function tc with
  | Present f => str_or (fn_arguments f) EmptyString
  | _ => EmptyString
  end.

(** The last non-empty string of [xs], or [d] when there is none. *)
Definition last_nonempty (xs : list string) (d : string) : string :=
  foldl (fun cur x => if decide (x = EmptyString) then cur else x) d xs.

(** A delta the branch in use reads without an exception. *)
Definition well_formed (use_litellm : bool) (tc : ToolCallDelta) : bool :=
  match tc_function tc with
  | Present f =>
      if use_litellm
      then match fn_arguments f with PyNone => false | _ => true end
      else true
  | Absent => use_litellm
  | PyNone => false
  end.

(** Following the spec's words: deltas accumulated per tool-call id.  A
    delta that brings an id opens or continues the call of that id; a delta
    without one continues the call of the last id seen.  Each call keeps its
    last non-empty name and the concatenation of its own fragments. *)
Fixpoint accumulate_per_id_from (tcs : list ToolCallDelta) (current : string)
    (calls : gmap string (string * string)) : gmap string (string * string) :=
  match tcs with
  | [] => calls
  | tc :: tcs' =>
      let current := if decide (delta_id tc = EmptyString) then current else delta_id tc in
      let call := default (EmptyString, EmptyString) (calls !! current) in
      let name := if decide (delta_name tc = EmptyString) then call.1 else delta_name tc in
      accumulate_per_id_from tcs' current
        (<[current := (name, call.2 +:+ delta_arguments tc)]> calls)
  end.

Definition accumulate_per_id (tcs : list ToolCallDelta) : gmap string (string * string) :=
  accumulate_per_id_from tcs EmptyString ∅.

(** Deltas of one call: each brings the id [i] or none. *)
Definition single_call (i : string) (tcs : list ToolCallDelta) : bool :=
  forallb (fun tc => bool_decide (delta_id tc = EmptyString) || bool_decide (delta_id tc = i))
          tcs.

(** A delta that both branches read without an exception. *)
Definition read_by_both (tc : ToolCallDelta) : bool :=
  well_formed true tc && well_formed false tc.

Section Handler.

(** Python floats, tool schemas and parsed JSON values are only passed
    along by the handler. *)
Context {PyFloat Schema PyVal : Type}.

(** [int(...)], [str(...)], [json.loads] and the function registry
    [sgpt.function.get_function]. *)
Variable py_int : string -> option Z.
Variable py_str : PyVal -> string.

Inductive PyJSON :=
| JDict (items : list (string * PyVal))
| JOther (v : PyVal).

Variable json_loads : string -> option PyJSON.
Variable get_function : string -> option (list (string * PyVal) -> Result string).

(** [use_litellm = cfg.get("USE_LITELLM") == "true"], evaluated once when
    the module is imported. *)
Variable use_litellm : bool.

(** [DefaultRoles.SHELL.value], [DefaultRoles.CODE.value] and
    [DefaultRoles.DESCRIBE_SHELL.value] of [sgpt/role.py]. *)
Variables SHELL CODE DESCRIBE_SHELL : string.

(** *** Keyword arguments, capabilities, events *)

Inductive KwVal :=
| KInt (z : Z)
| KStr (s : string)
| KNone
| KBool (b : bool)
| KTools (schemas : list Schema).

(** The provider capability: [litellm.completion], or the bound method
    [client.chat.completions.create] of the client built from its kwargs. *)
Inductive Completion :=
| LiteLLMCompletion
| OpenAICreate (client_kwargs : gmap string KwVal).

Inductive Event :=
| CfgGet (key : string)
| NewOpenAIClient (kwargs : gmap string KwVal)
| ProviderCall (f : Completion) (model : string) (temperature top_p : PyFloat)
               (msgs : list Message) (request_kwargs : gmap string KwVal)
| FunctionCall (name : string) (dict_args : list (string * PyVal))
| GetCompletion (caching : bool)
| CacheReplay (key : string)
| Close (response : Response).

(** *** State *)

Record State := {
  messages : list Message;                  (* the in-flight message list *)
  yielded : list string;                    (* fragments yielded so far *)
  log : list Event;
  completion : option Completion;           (* module global [completion] *)
  completion_kwargs : gmap string KwVal;    (* module global [completion_kwargs] *)
  cfg : string -> string;                   (* what [cfg.get] answers now *)
  store : gmap string (list string);        (* the cache store *)
}.

Definition M (A : Type) : Type := State -> Result A * State.

Definition ret {A} (a : A) : M A := fun st => (Ok a, st).

Definition raise {A} (e : PyError) : M A := fun st => (Raise e, st).

Definition bind {A B} (m : M A) (k : A -> M B) : M B := fun st =>
  match m st with
  | (Ok a, st') => k a st'
  | (Raise e, st') => (Raise e, st')
  end.

Definition get_state : M State := fun st => (Ok st, st).

Definition of_result {A} (r : Result A) : M A := fun st => (r, st).

Definition emit (ev : Event) : M unit := fun st =>
  (Ok tt,
   {| messages := messages st; yielded := yielded st; log := log st ++ [ev];
      completion := completion st; completion_kwargs := completion_kwargs st;
      cfg := cfg st; store := store st |}).

(** [yield s] *)
Definition yield (s : string) : M unit := fun st =>
  (Ok tt,
   {| messages := messages st; yielded := yielded st ++ [s]; log := log st;
      completion := completion st; completion_kwargs := completion_kwargs st;
      cfg := cfg st; store := store st |}).

(** [messages.append(m)] *)
Definition append_message (m : Message) : M unit := fun st =>
  (Ok tt,
   {| messages := messages st ++ [m]; yielded := yielded st; log := log st;
      completion := completion st; completion_kwargs := completion_kwargs st;
      cfg := cfg st; store := store st |}).

(** [global completion, completion_kwargs] and the two assignments. *)
Definition set_globals (c : Completion) (kw : gmap string KwVal) : M unit := fun st =>
  (Ok tt,
   {| messages := messages st; yielded := yielded st; log := log st;
      completion := Some c; completion_kwargs := kw;
      cfg := cfg st; store := store st |}).

Definition set_store (s : gmap string (list string)) (st : State) : State :=
  {| messages := messages st; yielded := yielded st; log := log st;
     completion := completion st; completion_kwargs := completion_kwargs st;
     cfg := cfg st; store := s |}.

(** [cfg.get(key)] *)
Definition cfg_get (key : string) : M string := fun st =>
  match emit (CfgGet key) st with
  | (_, st') => (Ok (cfg st key), st')
  end.

(** [try: body except KeyboardInterrupt: handler] *)
Definition try_except_KeyboardInterrupt (body handler : M unit) : M unit := fun st =>
  match body st with
  | (Raise KeyboardInterrupt, st') => handler st'
  | r => r
  end.

Notation "'let*' x ':=' m 'in' k" := (bind m (fun x => k))
  (at level 10, x name, m at level 100, k at level 200).
Notation "m >>> k" := (bind m (fun _ => k))
  (at level 90, right associativity).

(** [for s in frags: yield s] *)
Fixpoint yield_all (frags : list string) : M unit :=
  match frags with
  | [] => ret tt
  | s :: frags' => yield s >>> yield_all frags'
  end.

(** *** The provider gateway (handler.py, lines 16-43) *)

Definition get_provider_completion : M (Completion * gmap string KwVal) :=
  let* st := get_state in
  match completion st with
  | Some c => ret (c, completion_kwargs st)
  | None =>
      let* base_url := cfg_get "API_BASE_URL" in
      let* request_timeout := cfg_get "REQUEST_TIMEOUT" in
      match py_int request_timeout with
      | None => raise ValueError
      | Some timeout =>
          let* api_key := cfg_get "OPENAI_API_KEY" in
          let provider_kwargs : gmap string KwVal :=
            <["base_url" := if decide (base_url = "default") then KNone else KStr base_url]>
              (<["api_key" := KStr api_key]>
                 (<["timeout" := KInt timeout]> ∅)) in
          if use_litellm then
            let provider_kwargs := delete "api_key" provider_kwargs in
            set_globals LiteLLMCompletion provider_kwargs >>>
            ret (LiteLLMCompletion, provider_kwargs)
          else
            emit (NewOpenAIClient provider_kwargs) >>>
            set_globals (OpenAICreate provider_kwargs) ∅ >>>
            ret (OpenAICreate provider_kwargs, ∅)
      end
  end.

(** *** Tool-schema resolution (app.py, lines 263-272) *)

Definition role_supports_functions (role_name : string) : bool :=
  negb (bool_decide (role_name = SHELL)
        || bool_decide (role_name = CODE)
        || bool_decide (role_name = DESCRIBE_SHELL)).

(** [x or None] on a list. *)
Definition list_or_None {A} (l : list A) : option (list A) :=
  match l with
  | [] => None
  | _ => Some l
  end.

(** [get_openai_schemas] is the registry's list of schemas. *)
Definition function_schemas (use_functions : bool) (role_name : string)
    (get_openai_schemas : list Schema) : option (list Schema) :=
  if use_functions && role_supports_functions role_name
  then list_or_None get_openai_schemas
  else None.

(** *** Handler.handle_function_call (handler.py, lines 70-108) *)

(** [", ".join(f'{k}="{v}"' for k, v in dict_args.items())] *)
Definition joined_args (dict_args : list (string * PyVal)) : string :=
  String.concat ", "
    (map (fun kv => fst kv +:+ "=" +:+ dquote +:+ py_str (snd kv) +:+ dquote) dict_args).

Definition function_call_line (name : string) (dict_args : list (string * PyVal)) : string :=
  "> @FunctionCall `" +:+ name +:+ "(" +:+ joined_args dict_args +:+ ")` " +:+ nl +:+ nl.

Definition function_output_block (result : string) : string :=
  "```text" +:+ nl +:+ result +:+ nl +:+ "```" +:+ nl.

(** [messages and messages[-1]["role"] == "assistant"] *)
Definition last_is_assistant (msgs : list Message) : bool :=
  match last msgs with
  | Some m => bool_decide (role m = "assistant")
  | None => false
  end.

Definition handle_function_call (tool_call_id name arguments : string) : M unit :=
  append_message (assistant_message tool_call_id name arguments) >>>
  let* st := get_state in
  (if last_is_assistant (messages st) then yield nl else ret tt) >>>
  match json_loads arguments with
  | None => raise (JSONDecodeError arguments)
  | Some (JOther _) => raise AttributeError          (* no [items] *)
  | Some (JDict dict_args) =>
      yield (function_call_line name dict_args) >>>
      match get_function name with
      | None => raise (FunctionNotFound name)
      | Some f =>
          emit (FunctionCall name dict_args) >>>
          let* result := of_result (f dict_args) in
          let* show := cfg_get "SHOW_FUNCTIONS_OUTPUT" in
          (if decide (show = "true") then yield (function_output_block result) else ret tt) >>>
          append_message (tool_message result tool_call_id)
      end
  end.

(** *** The cache decorator and the request fingerprint *)

(** What the decorator sees of a call: the arguments of the decorated
    method. *)
Record FingerprintFields := {
  fp_model : string;
  fp_temperature : PyFloat;
  fp_top_p : PyFloat;
  fp_messages : list Message;
  fp_functions : option (list Schema);
}.

(** The digest function of the cache module. *)
Variable digest : FingerprintFields -> string.

(** Modelled from the spec: the request fingerprint of the cache module
    [sgpt/cache.py], which is not among the sources.  The spec (section 3):
    a deterministic digest derived from the ordered list of (model,
    temperature, top_p, message list, whether tool schemas were supplied).
    The digest is handed the schema list itself; one that reads no more of
    it than whether it is empty is the digest of the spec. *)
Definition fingerprint (model : string) (temperature top_p : PyFloat)
    (msgs : list Message) (functions : option (list Schema)) : string :=
  digest {| fp_model := model; fp_temperature := temperature; fp_top_p := top_p;
            fp_messages := msgs; fp_functions := functions |}.

(** The producer was cancelled if it closed a stream connection. *)
Definition is_Close (ev : Event) : bool :=
  match ev with
  | Close _ => true
  | _ => false
  end.

(** Modelled from the spec: the decorator [@cache] of [sgpt/cache.py]
    (class [Cache]), which is not among the sources, as the contract
    [get_or_compute] of the spec (section 4.1): with caching off the
    producer runs live and the store is neither read nor written; a stored
    entry is replayed verbatim without running the producer; on a miss the
    producer runs, its fragments pass through unchanged, and they are stored
    once it is drained without an error or a cancellation.  Eviction is left
    out: the handler never observes the size of the store.  Every invocation
    of the decorated function is logged with its [caching] flag. *)
Definition cache (caching : bool) (model : string) (temperature top_p : PyFloat)
    (functions : option (list Schema)) (producer : M unit) : M unit :=
  emit (GetCompletion caching) >>>
  if caching then
    let* st := get_state in
    let key := fingerprint model temperature top_p (messages st) functions in
    match store st !! key with
    | Some frags => emit (CacheReplay key) >>> yield_all frags
    | None =>
        producer >>>
        fun st' =>
          let fresh := drop (length (yielded st)) (yielded st') in
          let events := drop (length (log st)) (log st') in
          if existsb is_Close events then (Ok tt, st')
          else (Ok tt, set_store (<[key := fresh]> (store st')) st')
    end
  else producer.

(** *** Handler.get_completion (handler.py, lines 110-181) *)

(** [if functions: ...] on a copy of the provider kwargs. *)
Definition build_request_kwargs (provider_kwargs : gmap string KwVal)
    (functions : option (list Schema)) : gmap string KwVal :=
  match functions with
  | Some (s :: ss) =>
      <["parallel_tool_calls" := KBool false]>
        (<["tools" := KTools (s :: ss)]>
           (<["tool_choice" := KStr "auto"]> provider_kwargs))
  | _ => provider_kwargs
  end.

(** The body of [for chunk in response]; [on_tool_calls] is what lines
    166-177 do with the accumulated call before returning. *)
Fixpoint for_chunks (on_tool_calls : Acc -> M unit) (response : Response) (acc : Acc)
  : M unit :=
  match response with
  | [] => ret tt
  | Throw e :: _ => raise e
  | Item chunk :: response' =>
      match choices chunk with
      | [] => for_chunks on_tool_calls response' acc          (* continue *)
      | choice :: _ =>
          let* acc' := of_result
                         (accumulate_all use_litellm (tool_calls (delta choice)) acc) in
          if is_tool_calls (finish_reason choice)
          then on_tool_calls acc'
          else yield (content_or_empty (content (delta choice))) >>>
               for_chunks on_tool_calls response' acc'
      end
  end.

(** [is_shell_role or is_code_role or is_dsc_shell_role] *)
Definition is_reserved_role (role_name : string) : bool :=
  bool_decide (role_name = SHELL)
  || bool_decide (role_name = CODE)
  || bool_decide (role_name = DESCRIBE_SHELL).

(** The undecorated function.  [script] holds the responses the provider
    will give to this call and to the calls after it; a call beyond the
    script fails.  The recursive call of line 169 goes through the
    decorator with [caching=False]. *)
Fixpoint get_completion_body (script : list Response) (role_name model : string)
    (temperature top_p : PyFloat) (functions : option (list Schema)) : M unit :=
  let functions := if is_reserved_role role_name then None else functions in
  let* provider := get_provider_completion in
  let request_kwargs := build_request_kwargs (snd provider) functions in
  let* st := get_state in
  emit (ProviderCall (fst provider) model temperature top_p (messages st) request_kwargs) >>>
  match script with
  | [] => raise ProviderError
  | response :: script' =>
      try_except_KeyboardInterrupt
        (for_chunks
           (fun acc =>
              handle_function_call (acc_id acc) (acc_name acc) (acc_arguments acc) >>>
              cache false model temperature top_p functions
                (get_completion_body script' role_name model temperature top_p functions))
           response acc0)
        (emit (Close response))
  end.

(** The decorated method, as callers see it. *)
Definition get_completion (caching : bool) (script : list Response)
    (role_name model : string) (temperature top_p : PyFloat)
    (functions : option (list Schema)) : M unit :=
  cache caching model temperature top_p functions
    (get_completion_body script role_name model temperature top_p functions).

(** ** Vocabulary of the statements *)

(** The three keyword arguments of tool calling. *)
Definition tool_free (kw : gmap string KwVal) : Prop :=
  kw !! "tool_choice" = None /\ kw !! "tools" = None /\ kw !! "parallel_tool_calls" = None.

(** The tool fields a request carries for a resolved schema list. *)
Definition tool_fields (functions : option (list Schema)) (kw : gmap string KwVal) : Prop :=
  match functions with
  | Some (s :: ss) =>
      kw !! "tool_choice" = Some (KStr "auto")
      /\ kw !! "tools" = Some (KTools (s :: ss))
      /\ kw !! "parallel_tool_calls" = Some (KBool false)
  | _ => tool_free kw
  end.

(** The schema list after the override of lines 120-124. *)
Definition resolved_functions (role_name : string) (functions : option (list Schema))
  : option (list Schema) :=
  if is_reserved_role role_name then None else functions.

(** The kwargs the gateway builds. *)
Definition built_kwargs (base_url api_key : KwVal) (timeout : Z) : gmap string KwVal :=
  <["base_url" := base_url]> (<["api_key" := api_key]> (<["timeout" := KInt timeout]> ∅)).

(** [m] keeps [Inv] on the memoized kwargs and logs only events that
    satisfy [P]. *)
Definition sound (Inv : gmap string KwVal -> Prop) (P : Event -> Prop) {A} (m : M A) : Prop :=
  forall st, Inv (completion_kwargs st) ->
    Inv (completion_kwargs (m st).2)
    /\ exists evs, log (m st).2 = log st ++ evs /\ Forall P evs.

Definition add_yielded (frags : list string) (st : State) : State :=
  {| messages := messages st; yielded := yielded st ++ frags; log := log st;
     completion := completion st; completion_kwargs := completion_kwargs st;
     cfg := cfg st; store := store st |}.

Definition add_log (evs : list Event) (st : State) : State :=
  {| messages := messages st; yielded := yielded st; log := log st ++ evs;
     completion := completion st; completion_kwargs := completion_kwargs st;
     cfg := cfg st; store := store st |}.

Definition add_messages (ms : list Message) (st : State) : State :=
  {| messages := messages st ++ ms; yielded := yielded st; log := log st;
     completion := completion st; completion_kwargs := completion_kwargs st;
     cfg := cfg st; store := store st |}.

(** A chunk the loop passes by: no choices, or a first choice whose
    finish reason is not [tool_calls]. *)
Definition plain_item (it : StreamItem) : bool :=
  match it with
  | Item chunk =>
      match choices chunk with
      | [] => true
      | choice :: _ => negb (is_tool_calls (finish_reason choice))
      end
  | Throw _ => false
  end.

(** A chunk whose first choice finishes with [tool_calls]. *)
Definition tool_call_chunk (chunk : Chunk) : bool :=
  match choices chunk with
  | [] => false
  | choice :: _ => is_tool_calls (finish_reason choice)
  end.

(** The content fragments of a run of chunks, one per chunk that has a
    choice ([delta.content or ""]). *)
Fixpoint fragments (items : list StreamItem) : list string :=
  match items with
  | [] => []
  | Item chunk :: items' =>
      match choices chunk with
      | [] => fragments items'
      | choice :: _ => content_or_empty (content (delta choice)) :: fragments items'
      end
  | Throw _ :: items' => fragments items'
  end.

(** The tool-call deltas of a run of chunks, in arrival order. *)
Fixpoint deltas (items : list StreamItem) : list ToolCallDelta :=
  match items with
  | [] => []
  | Item chunk :: items' =>
      match choices chunk with
      | [] => deltas items'
      | choice :: _ => tool_calls (delta choice) ++ deltas items'
      end
  | Throw _ :: items' => deltas items'
  end.

(** What the gateway logs: configuration reads and the client it builds. *)
Definition gateway_event (ev : Event) : bool :=
  match ev with
  | CfgGet _ | NewOpenAIClient _ => true
  | _ => false
  end.

(** The gateway can answer: the capability is memoized already, or the
    configured timeout is an integer. *)
Definition gateway_ready (st : State) : bool :=
  match completion st with
  | Some _ => true
  | None => bool_decide (is_Some (py_int (cfg st "REQUEST_TIMEOUT")))
  end.

(** The state a successful tool call leaves. *)
Definition after_function_call (tool_call_id name arguments : string)
    (dict_args : list (string * PyVal)) (result : string) (st : State) : State :=
  add_messages [assistant_message tool_call_id name arguments; tool_message result tool_call_id]
    (add_yielded
       ([nl; function_call_line name dict_args]
          ++ (if decide (cfg st "SHOW_FUNCTIONS_OUTPUT" = "true")
              then [function_output_block result] else []))
       (add_log [FunctionCall name dict_args; CfgGet "SHOW_FUNCTIONS_OUTPUT"] st)).

(** What lines 166-177 do with the accumulated call. *)
Definition on_tool_calls (script' : list Response) (role_name model : string)
    (temperature top_p : PyFloat) (functions : option (list Schema)) (acc : Acc) : M unit :=
  handle_function_call (acc_id acc) (acc_name acc) (acc_arguments acc) >>>
  cache false model temperature top_p functions
    (get_completion_body script' role_name model temperature top_p functions).

(** The request the body sends from state [st] once the gateway answered. *)
Definition provider_call (provider : Completion * gmap string KwVal) (role_name model : string)
    (temperature top_p : PyFloat) (functions : option (list Schema)) (st : State) : Event :=
  ProviderCall provider.1 model temperature top_p (messages st)
    (build_request_kwargs provider.2 (resolved_functions role_name functions)).

(** The decorator on a call that is not answered from the store: the
    producer runs after the invocation is logged, and at most the store
    differs afterwards. *)
Definition cache_hit (caching : bool) (model : string) (temperature top_p : PyFloat)
    (functions : option (list Schema)) (st : State) : bool :=
  caching && bool_decide (is_Some (store st !! fingerprint model temperature top_p
                                                   (messages st) functions)).

(** Counting events of one kind. *)
Definition is_FunctionCall (ev : Event) : bool :=
  match ev with
  | FunctionCall _ _ => true
  | _ => false
  end.

Definition is_ProviderCall (ev : Event) : bool :=
  match ev with
  | ProviderCall _ _ _ _ _ _ => true
  | _ => false
  end.

Definition count (f : Event -> bool) (evs : list Event) : nat :=
  length (List.filter f evs).

Definition is_GetCompletion (ev : Event) : bool :=
  match ev with
  | GetCompletion _ => true
  | _ => false
  end.

Definition is_tool_message (m : Message) : bool :=
  bool_decide (role m = "tool").

(** The tool-role messages of the list, and the invocations of the
    decorated [get_completion] logged so far. *)
Definition tool_messages (st : State) : nat :=
  length (List.filter is_tool_message (messages st)).

Definition invocations (st : State) : nat :=
  count is_GetCompletion (log st).

(** [m] appends as many tool-role messages as it makes invocations of
    [get_completion]. *)
Definition balanced {A} (m : M A) : Prop :=
  forall st, exists n,
    tool_messages (m st).2 = tool_messages st + n
    /\ invocations (m st).2 = invocations st + n.

(** The events that say something about tool fields or caching. *)
Definition request_event (functions : option (list Schema)) (ev : Event) : Prop :=
  match ev with
  | ProviderCall _ _ _ _ _ kw => tool_fields functions kw
  | _ => True
  end.

Definition nested_event (ev : Event) : Prop :=
  match ev with
  | GetCompletion caching => caching = false
  | _ => True
  end.


(** The messages a tool call appends. *)
Definition tool_turn (m : Message) : Prop :=
  role m = "assistant" \/ role m = "tool".

(** [m] only appends: tool turns to the message list, fragments to the
    output. *)
Definition appends {A} (m : M A) : Prop :=
  forall st, exists added out,
    messages (m st).2 = messages st ++ added
    /\ Forall tool_turn added
    /\ yielded (m st).2 = yielded st ++ out.

(** A provider call made with the given sampling parameters. *)
Definition same_parameters (model : string) (temperature top_p : PyFloat) (ev : Event) : Prop :=
  match ev with
  | ProviderCall _ m t p _ _ => m = model /\ t = temperature /\ p = top_p
  | _ => True
  end.

(** A provider call whose kwargs hold no API key. *)
Definition keyless (ev : Event) : Prop :=
  match ev with
  | ProviderCall _ _ _ _ _ kw => kw !! "api_key" = None
  | _ => True
  end.

(** ** Facts about strings *)

Lemma string_app_nil_r (s : string) : s +:+ EmptyString = s.
Proof.
  induction s as [|a s IH]; [done|].
  change (String a (s +:+ EmptyString) = String a s). by rewrite IH.
Qed.

Lemma string_app_assoc (s1 s2 s3 : string) : (s1 +:+ s2) +:+ s3 = s1 +:+ s2 +:+ s3.
Proof.
  induction s1 as [|a s1 IH]; [done|].
  change (String a ((s1 +:+ s2) +:+ s3) = String a (s1 +:+ s2 +:+ s3)). by rewrite IH.
Qed.


(** ** What the handler logs *)

Lemma resolved_functions_idem role_name functions :
  resolved_functions role_name (resolved_functions role_name functions)
  = resolved_functions role_name functions.
Proof. unfold resolved_functions. by destruct (is_reserved_role role_name). Qed.

Lemma built_kwargs_tool_free base_url api_key timeout :
  tool_free (delete "api_key" (built_kwargs base_url api_key timeout)).
Proof. by vm_compute. Qed.

Lemma tool_free_empty : tool_free ∅.
Proof. by vm_compute. Qed.

Lemma tool_fields_build kw functions :
  tool_free kw -> tool_fields functions (build_request_kwargs kw functions).
Proof.
  intros H. destruct functions as [[|s ss]|]; simpl; try exact H.
  repeat split.
  - by rewrite lookup_insert_ne, lookup_insert_ne, lookup_insert_eq.
  - by rewrite lookup_insert_ne, lookup_insert_eq.
  - by rewrite lookup_insert_eq.
Qed.

(** The undecorated function, level by level. *)
Lemma get_completion_body_eq script role_name model temperature top_p functions :
  get_completion_body script role_name model temperature top_p functions
  = bind get_provider_completion (fun provider =>
      let* st0 := get_state in
      emit (provider_call provider role_name model temperature top_p functions st0) >>>
      match script with
      | [] => raise ProviderError
      | response :: script' =>
          try_except_KeyboardInterrupt
            (for_chunks
               (on_tool_calls script' role_name model temperature top_p
                  (resolved_functions role_name functions))
               response acc0)
            (emit (Close response))
      end).
Proof. by destruct script. Qed.

Section Sound.

(** [Inv] is an invariant of the memoized kwargs, [P] a property of
    events, [resolved] the schema list a run works with. *)
Variable Inv : gmap string KwVal -> Prop.
Variable P : Event -> Prop.
Variable resolved : option (list Schema).

Hypothesis Inv_empty : Inv ∅.
Hypothesis Inv_built :
  forall base_url api_key timeout, Inv (delete "api_key" (built_kwargs base_url api_key timeout)).
Hypothesis P_CfgGet : forall key, P (CfgGet key).
Hypothesis P_NewOpenAIClient : forall kw, P (NewOpenAIClient kw).
Hypothesis P_FunctionCall : forall name dict_args, P (FunctionCall name dict_args).
Hypothesis P_Close : forall response, P (Close response).
Hypothesis P_GetCompletion : P (GetCompletion false).
Hypothesis P_ProviderCall :
  forall c model temperature top_p msgs kw,
    Inv kw ->
    P (ProviderCall c model temperature top_p msgs (build_request_kwargs kw resolved)).

Lemma sound_silent {A} (m : M A) :
  (forall st, completion_kwargs (m st).2 = completion_kwargs st /\ log (m st).2 = log st) ->
  sound Inv P m.
Proof.
  intros Hm st H. destruct (Hm st) as [-> ->]. split; [exact H|].
  exists []. by rewrite app_nil_r.
Qed.

Lemma sound_ret {A} (a : A) : sound Inv P (ret a).
Proof. by apply sound_silent. Qed.

Lemma sound_raise {A} e : sound Inv P (@raise A e).
Proof. by apply sound_silent. Qed.

Lemma sound_of_result {A} (r : Result A) : sound Inv P (of_result r).
Proof. by apply sound_silent. Qed.

Lemma sound_get_state : sound Inv P get_state.
Proof. by apply sound_silent. Qed.

Lemma sound_yield s : sound Inv P (yield s).
Proof. by apply sound_silent. Qed.

Lemma sound_append_message m : sound Inv P (append_message m).
Proof. by apply sound_silent. Qed.

Lemma sound_emit ev : P ev -> sound Inv P (emit ev).
Proof. intros Hev st H. split; [exact H|]. exists [ev]. split; [done|]. by constructor. Qed.

Lemma sound_cfg_get key : sound Inv P (cfg_get key).
Proof.
  intros st H. split; [exact H|]. exists [CfgGet key]. split; [done|]. by constructor.
Qed.

Lemma sound_set_globals c kw : Inv kw -> sound Inv P (set_globals c kw).
Proof. intros Hkw st H. split; [exact Hkw|]. exists []. by rewrite app_nil_r. Qed.

Lemma sound_bind {A B} (m : M A) (k : A -> M B) :
  sound Inv P m -> (forall a, sound Inv P (k a)) -> sound Inv P (bind m k).
Proof.
  intros Hm Hk st H. unfold bind.
  destruct (Hm st H) as (H1 & evs1 & Hlog1 & HP1).
  destruct (m st) as [[a|e] st1]; simpl in *.
  - destruct (Hk a st1 H1) as (H2 & evs2 & Hlog2 & HP2).
    split; [exact H2|]. exists (evs1 ++ evs2).
    rewrite Hlog2, Hlog1, app_assoc. split; [done|]. by apply Forall_app.
  - split; [exact H1|]. by exists evs1.
Qed.

Lemma sound_try (body handler : M unit) :
  sound Inv P body -> sound Inv P handler -> sound Inv P (try_except_KeyboardInterrupt body handler).
Proof.
  intros Hb Hh st H. unfold try_except_KeyboardInterrupt.
  destruct (Hb st H) as (H1 & evs1 & Hlog1 & HP1).
  destruct (body st) as [[a|e] st1]; simpl in *.
  - split; [exact H1|]. by exists evs1.
  - destruct (Hh st1 H1) as (H2 & evs2 & Hlog2 & HP2).
    destruct e; simpl; try (split; [exact H1|]; by exists evs1).
    split; [exact H2|]. exists (evs1 ++ evs2).
    rewrite Hlog2, Hlog1, app_assoc. split; [done|]. by apply Forall_app.
Qed.

Lemma sound_yield_all frags : sound Inv P (yield_all frags).
Proof.
  induction frags as [|s frags IH]; simpl.
  - apply sound_ret.
  - apply sound_bind; [apply sound_yield | intros _; exact IH].
Qed.

Lemma sound_for_chunks (k : Acc -> M unit) response :
  (forall acc, sound Inv P (k acc)) -> forall acc, sound Inv P (for_chunks k response acc).
Proof.
  intros Hk. induction response as [|[chunk|e] response IH]; intros acc; simpl.
  - apply sound_ret.
  - destruct (choices chunk) as [|choice ?]; [apply IH|].
    apply sound_bind; [apply sound_of_result|]. intros acc'.
    destruct (is_tool_calls _); [apply Hk|].
    apply sound_bind; [apply sound_yield | intros _; apply IH].
  - apply sound_raise.
Qed.

Lemma sound_get_provider_completion : sound Inv P get_provider_completion.
Proof.
  unfold get_provider_completion.
  apply sound_bind; [apply sound_get_state|]. intros st.
  destruct (completion st); [apply sound_ret|].
  apply sound_bind; [by apply sound_cfg_get|]. intros base_url.
  apply sound_bind; [by apply sound_cfg_get|]. intros request_timeout.
  destruct (py_int request_timeout) as [timeout|]; [|apply sound_raise].
  apply sound_bind; [by apply sound_cfg_get|]. intros api_key.
  destruct use_litellm.
  - apply sound_bind; [|intros; apply sound_ret].
    apply sound_set_globals, Inv_built.
  - apply sound_bind; [by apply sound_emit|]. intros _.
    apply sound_bind; [|intros; apply sound_ret].
    by apply sound_set_globals.
Qed.

(** The kwargs the gateway returns satisfy the invariant too. *)
Lemma get_provider_completion_kwargs st c kw :
  Inv (completion_kwargs st) ->
  (get_provider_completion st).1 = Ok (c, kw) -> Inv kw.
Proof.
  intros H. unfold get_provider_completion, bind, get_state, cfg_get; simpl.
  destruct (completion st); simpl; [by intros [= _ <-]|].
  destruct (py_int _) as [timeout|]; simpl; [|done].
  destruct use_litellm; simpl; intros [= _ <-]; [apply Inv_built | apply Inv_empty].
Qed.

(** Binding the gateway's result: the continuation may rely on the
    invariant of the kwargs it is given. *)
Lemma sound_bind_gateway {B} (k : Completion * gmap string KwVal -> M B) :
  (forall c kw, Inv kw -> sound Inv P (k (c, kw))) ->
  sound Inv P (bind get_provider_completion k).
Proof.
  intros Hk st H. unfold bind.
  pose proof (sound_get_provider_completion st H) as (H1 & evs1 & Hlog1 & HP1).
  pose proof (get_provider_completion_kwargs st) as Hkw.
  destruct (get_provider_completion st) as [[[c kw]|e] st1]; simpl in *.
  - destruct (Hk c kw (Hkw c kw H eq_refl) st1 H1) as (H2 & evs2 & Hlog2 & HP2).
    split; [exact H2|]. exists (evs1 ++ evs2). rewrite Hlog2, Hlog1, app_assoc.
    split; [done|]. by apply Forall_app.
  - split; [done|]. by exists evs1.
Qed.

Lemma sound_handle_function_call tool_call_id name arguments :
  sound Inv P (handle_function_call tool_call_id name arguments).
Proof.
  unfold handle_function_call.
  apply sound_bind; [apply sound_append_message|]. intros _.
  apply sound_bind; [apply sound_get_state|]. intros st.
  apply sound_bind; [destruct (last_is_assistant _); [apply sound_yield|apply sound_ret]|].
  intros _. destruct (json_loads arguments) as [[dict_args|v]|]; try apply sound_raise.
  apply sound_bind; [apply sound_yield|]. intros _.
  destruct (get_function name) as [f|]; [|apply sound_raise].
  apply sound_bind; [by apply sound_emit|]. intros _.
  apply sound_bind; [apply sound_of_result|]. intros result.
  apply sound_bind; [by apply sound_cfg_get|]. intros show.
  apply sound_bind; [|intros; apply sound_append_message].
  destruct (decide _); [apply sound_yield|apply sound_ret].
Qed.

(** Every event of a run of the undecorated [get_completion] satisfies
    [P], whatever the provider answers. *)
Lemma sound_get_completion_body script :
  forall role_name model temperature top_p functions,
    resolved_functions role_name functions = resolved ->
    sound Inv P (get_completion_body script role_name model temperature top_p functions).
Proof.
  induction script as [|response script' IH];
    intros role_name model temperature top_p functions Hres;
    rewrite get_completion_body_eq;
    apply sound_bind_gateway; intros c kw Hkw;
    (apply sound_bind; [apply sound_get_state|]); intros st0;
    (apply sound_bind;
       [apply sound_emit; unfold provider_call; rewrite Hres; by apply P_ProviderCall|]);
    intros _.
  - apply sound_raise.
  - apply sound_try; [|by apply sound_emit].
    apply sound_for_chunks. intros acc. unfold on_tool_calls.
    apply sound_bind; [apply sound_handle_function_call|]. intros _.
    unfold cache. apply sound_bind; [by apply sound_emit|]. intros _.
    apply IH. by rewrite resolved_functions_idem.
Qed.

(** The decorated call logs its invocation first; what follows is a
    replay or the events of the producer. *)
Lemma sound_cache caching model temperature top_p functions (producer : M unit) :
  (forall key, P (CacheReplay key)) ->
  sound Inv P producer ->
  forall st, Inv (completion_kwargs st) ->
    exists evs,
      log (cache caching model temperature top_p functions producer st).2
      = log st ++ GetCompletion caching :: evs
      /\ Forall P evs.
Proof.
  intros Hreplay Hprod st H. unfold cache.
  unfold bind at 1. simpl emit. cbv beta iota.
  set (st0 := {| messages := messages st; yielded := yielded st;
                 log := log st ++ [GetCompletion caching];
                 completion := completion st; completion_kwargs := completion_kwargs st;
                 cfg := cfg st; store := store st |}).
  assert (Inv (completion_kwargs st0)) as H0 by exact H.
  assert (forall (m : M unit), sound Inv P m ->
            exists evs, log (m st0).2 = log st ++ GetCompletion caching :: evs
                        /\ Forall P evs) as Hrun.
  { intros m Hm. destruct (Hm st0 H0) as (_ & evs & Hlog & HP).
    exists evs. split; [|done]. rewrite Hlog. simpl. by rewrite <- app_assoc. }
  destruct caching; [|by apply Hrun].
  apply Hrun. apply sound_bind; [apply sound_get_state|]. intros st1.
  destruct (store st1 !! _).
  - apply sound_bind; [by apply sound_emit|]. intros _. apply sound_yield_all.
  - apply sound_bind; [exact Hprod|]. intros _.
    apply sound_silent. intros st2. by destruct (existsb _ _).
Qed.

End Sound.

(** ** Accumulation of tool-call deltas *)

Lemma str_or_delta (x : field string) (d : string) :
  str_or x d = if decide (str_or x EmptyString = EmptyString) then d else str_or x EmptyString.
Proof.
  destruct x as [| |s]; simpl; try done.
  destruct (decide (s = EmptyString)) as [->|Hs]; simpl; [done|].
  by destruct (decide (s = EmptyString)).
Qed.

Lemma accumulate_well_formed ul acc tc :
  well_formed ul tc = true ->
  accumulate ul acc tc
  = Ok {| acc_id := if decide (delta_id tc = EmptyString) then acc_id acc else delta_id tc;
          acc_name := if decide (delta_name tc = EmptyString) then acc_name acc
                      else delta_name tc;
          acc_arguments := acc_arguments acc +:+ delta_arguments tc |}.
Proof.
  unfold well_formed, accumulate, accumulate_litellm, accumulate_openai,
    delta_id, delta_name, delta_arguments.
  destruct ul, (tc_function tc) as [| |f]; try done; intros Hwf.
  - rewrite <- (str_or_delta (tc_id tc)). by destruct (decide _).
  - rewrite <- (str_or_delta (tc_id tc)), <- (str_or_delta (fn_name f)).
    destruct (fn_arguments f) as [| |a]; try done.
    simpl. destruct (decide (a = EmptyString)) as [->|]; [|done].
    by rewrite string_app_nil_r.
  - by rewrite <- (str_or_delta (tc_id tc)), <- (str_or_delta (fn_name f)).
Qed.

(** A run of deltas leaves one call in progress: the last non-empty id
    and name, and the fragments joined in arrival order. *)
Lemma accumulate_all_last_nonempty ul tcs acc :
  forallb (well_formed ul) tcs = true ->
  accumulate_all ul tcs acc
  = Ok {| acc_id := last_nonempty (map delta_id tcs) (acc_id acc);
          acc_name := last_nonempty (map delta_name tcs) (acc_name acc);
          acc_arguments := acc_arguments acc +:+ full_text (map delta_arguments tcs) |}.
Proof.
  revert acc. induction tcs as [|tc tcs IH]; intros acc Hwf.
  - simpl. unfold last_nonempty. simpl. rewrite string_app_nil_r. by destruct acc.
  - simpl in Hwf. apply andb_prop in Hwf as [Htc Hwf].
    change (accumulate_all ul (tc :: tcs) acc)
      with (match accumulate ul acc tc with
            | Ok acc' => accumulate_all ul tcs acc'
            | Raise e => Raise e
            end).
    rewrite (accumulate_well_formed ul acc tc Htc), (IH _ Hwf). simpl.
    change (full_text (delta_arguments tc :: map delta_arguments tcs))
      with (delta_arguments tc +:+ full_text (map delta_arguments tcs)).
    by rewrite string_app_assoc.
Qed.

(** Where the code and the reading per id agree: on the deltas of one
    call whose id comes with the first of them, the call in progress is the
    call kept under that id. *)
Lemma accumulate_per_id_from_single i tcs calls n a :
  i <> EmptyString ->
  single_call i tcs = true ->
  calls !! i = Some (n, a) ->
  accumulate_per_id_from tcs i calls !! i
  = Some (last_nonempty (map delta_name tcs) n, a +:+ full_text (map delta_arguments tcs)).
Proof.
  intros Hi. revert calls n a. induction tcs as [|tc tcs IH]; intros calls n a Hone Hcalls.
  - simpl. unfold last_nonempty. simpl. by rewrite string_app_nil_r.
  - simpl in Hone. apply andb_prop in Hone as [Htc Hone]. simpl.
    assert ((if decide (delta_id tc = EmptyString) then i else delta_id tc) = i) as ->.
    { destruct (decide (delta_id tc = EmptyString)); [done|].
      apply orb_prop in Htc as [H|H]; apply bool_decide_eq_true in H; done. }
    rewrite Hcalls. simpl.
    rewrite (IH _ _ _ Hone (lookup_insert_eq _ _ _)).
    change (full_text (delta_arguments tc :: map delta_arguments tcs))
      with (delta_arguments tc +:+ full_text (map delta_arguments tcs)).
    by rewrite string_app_assoc.
Qed.

Lemma last_nonempty_single i tcs :
  single_call i tcs = true -> last_nonempty (map delta_id tcs) i = i.
Proof.
  induction tcs as [|tc tcs IH]; [done|].
  simpl. intros [Htc Hone]%andb_prop. unfold last_nonempty. simpl.
  destruct (decide (delta_id tc = EmptyString)); [by apply IH|].
  apply orb_prop in Htc as [H|H]; apply bool_decide_eq_true in H; [done|].
  rewrite H. by apply IH.
Qed.

Lemma single_call_agrees_with_per_id ul tc tcs :
  delta_id tc <> EmptyString ->
  single_call (delta_id tc) tcs = true ->
  forallb (well_formed ul) (tc :: tcs) = true ->
  exists acc,
    accumulate_all ul (tc :: tcs) acc0 = Ok acc
    /\ acc_id acc = delta_id tc
    /\ accumulate_per_id (tc :: tcs) !! delta_id tc = Some (acc_name acc, acc_arguments acc).
Proof.
  intros Hid Hone Hwf. eexists. split; [by apply accumulate_all_last_nonempty|].
  simpl. split.
  - unfold last_nonempty. simpl. rewrite (decide_False (P := delta_id tc = EmptyString)) by done.
    by apply last_nonempty_single.
  - unfold accumulate_per_id. simpl.
    rewrite (decide_False (P := delta_id tc = EmptyString)) by done.
    rewrite lookup_empty. simpl.
    rewrite (accumulate_per_id_from_single _ _ _ _ _ Hid Hone (lookup_insert_eq _ _ _)).
    unfold last_nonempty. simpl.
    change (full_text (delta_arguments tc :: map delta_arguments tcs))
      with (delta_arguments tc +:+ full_text (map delta_arguments tcs)).
    done.
Qed.

(** ** Running the handler on a given stream *)

Lemma accumulate_all_app ul tcs1 tcs2 acc :
  accumulate_all ul (tcs1 ++ tcs2) acc
  = match accumulate_all ul tcs1 acc with
    | Ok acc' => accumulate_all ul tcs2 acc'
    | Raise e => Raise e
    end.
Proof.
  revert acc. induction tcs1 as [|tc tcs1 IH]; intros acc; simpl; [done|].
  destruct (accumulate ul acc tc); [apply IH|done].
Qed.

Lemma deltas_app items1 items2 : deltas (items1 ++ items2) = deltas items1 ++ deltas items2.
Proof.
  induction items1 as [|[chunk|e] items1 IH]; simpl; [done| |done].
  destruct (choices chunk); [done|]. by rewrite IH, app_assoc.
Qed.


Lemma emit_add_log ev st : emit ev st = (Ok tt, add_log [ev] st).
Proof. done. Qed.

Lemma add_yielded_nil st : add_yielded [] st = st.
Proof. destruct st. unfold add_yielded; simpl. by rewrite app_nil_r. Qed.

Lemma add_yielded_add_yielded frags1 frags2 st :
  add_yielded frags2 (add_yielded frags1 st) = add_yielded (frags1 ++ frags2) st.
Proof. unfold add_yielded; simpl. by rewrite app_assoc. Qed.

(** The loop over a prefix of plain chunks yields their fragments and
    accumulates their deltas. *)
Lemma for_chunks_plain k pre rest acc acc' st :
  forallb plain_item pre = true ->
  accumulate_all use_litellm (deltas pre) acc = Ok acc' ->
  for_chunks k (pre ++ rest) acc st = for_chunks k rest acc' (add_yielded (fragments pre) st).
Proof.
  revert acc st. induction pre as [|[chunk|e] pre IH]; intros acc st Hplain Hacc; simpl in *.
  - injection Hacc as ->. by rewrite add_yielded_nil.
  - apply andb_prop in Hplain as [Hc Hplain].
    destruct (choices chunk) as [|choice ?]; [by apply IH|].
    rewrite accumulate_all_app in Hacc. unfold bind, of_result.
    destruct (accumulate_all use_litellm (tool_calls (delta choice)) acc) as [acc1|]; [|done].
    apply negb_true_iff in Hc. rewrite Hc. simpl.
    rewrite (IH acc1 _ Hplain Hacc).
    f_equal. unfold add_yielded; simpl. by rewrite <- app_assoc.
  - done.
Qed.


Lemma for_chunks_throw k pre e post acc acc' st :
  forallb plain_item pre = true ->
  accumulate_all use_litellm (deltas pre) acc = Ok acc' ->
  for_chunks k (pre ++ Throw e :: post) acc st = (Raise e, add_yielded (fragments pre) st).
Proof. intros Hplain Hacc. by rewrite (for_chunks_plain k pre _ acc acc' st Hplain Hacc). Qed.

Lemma for_chunks_tool_call k pre chunk post acc acc' st :
  forallb plain_item pre = true ->
  tool_call_chunk chunk = true ->
  accumulate_all use_litellm (deltas (pre ++ [Item chunk])) acc = Ok acc' ->
  for_chunks k (pre ++ Item chunk :: post) acc st = k acc' (add_yielded (fragments pre) st).
Proof.
  intros Hplain Hchunk Hacc. rewrite deltas_app, accumulate_all_app in Hacc.
  destruct (accumulate_all use_litellm (deltas pre) acc) as [acc1|] eqn:Hpre; [|done].
  rewrite (for_chunks_plain k pre _ acc acc1 st Hplain Hpre). simpl in *.
  unfold tool_call_chunk in Hchunk.
  destruct (choices chunk) as [|choice ?]; [done|].
  rewrite app_nil_r in Hacc. unfold bind, of_result. by rewrite Hacc, Hchunk.
Qed.

(** *** The gateway *)

Lemma gateway_hit st c :
  completion st = Some c ->
  get_provider_completion st = (Ok (c, completion_kwargs st), st).
Proof. intros H. unfold get_provider_completion, bind, get_state. by rewrite H. Qed.

Lemma gateway_memo st provider st1 :
  get_provider_completion st = (Ok provider, st1) ->
  completion st1 = Some provider.1 /\ completion_kwargs st1 = provider.2
  /\ messages st1 = messages st /\ yielded st1 = yielded st
  /\ cfg st1 = cfg st /\ store st1 = store st
  /\ exists evs, log st1 = log st ++ evs /\ forallb gateway_event evs = true.
Proof.
  unfold get_provider_completion, bind, get_state, cfg_get; simpl.
  destruct (completion st) as [c|] eqn:Hc; simpl.
  - intros [= <- <-]. repeat split; try done. exists []. by rewrite app_nil_r.
  - destruct (py_int _) as [timeout|]; simpl; [|done].
    destruct use_litellm; simpl; intros [= <- <-]; simpl; repeat split;
      eexists; rewrite <- !app_assoc; (split; [reflexivity|reflexivity]).
Qed.

Lemma gateway_ready_ok st :
  gateway_ready st = true -> exists provider st1, get_provider_completion st = (Ok provider, st1).
Proof.
  unfold gateway_ready, get_provider_completion, bind, get_state, cfg_get; simpl.
  destruct (completion st) as [c|]; simpl; [by eauto|].
  intros [timeout Ht]%bool_decide_eq_true. rewrite Ht.
  destruct use_litellm; simpl; eauto.
Qed.

(** *** handle_function_call *)

Lemma last_is_assistant_snoc msgs tool_call_id name arguments :
  last_is_assistant (msgs ++ [assistant_message tool_call_id name arguments]) = true.
Proof. unfold last_is_assistant. by rewrite last_snoc. Qed.

Lemma handle_function_call_ok tool_call_id name arguments dict_args f result st :
  json_loads arguments = Some (JDict dict_args) ->
  get_function name = Some f ->
  f dict_args = Ok result ->
  handle_function_call tool_call_id name arguments st
  = (Ok tt, after_function_call tool_call_id name arguments dict_args result st).
Proof.
  intros Hjson Hfun Hres.
  unfold handle_function_call, bind, append_message, get_state; simpl.
  rewrite last_is_assistant_snoc, Hjson; simpl. rewrite Hfun; simpl.
  unfold of_result. rewrite Hres. unfold cfg_get; simpl.
  unfold after_function_call, add_messages, add_yielded, add_log; simpl.
  destruct (decide (cfg st "SHOW_FUNCTIONS_OUTPUT" = "true")); simpl;
    by rewrite <- !app_assoc.
Qed.

Lemma handle_function_call_bad_json tool_call_id name arguments st :
  json_loads arguments = None ->
  handle_function_call tool_call_id name arguments st
  = (Raise (JSONDecodeError arguments),
     add_yielded [nl] (add_messages [assistant_message tool_call_id name arguments] st)).
Proof.
  intros Hjson.
  unfold handle_function_call, bind, append_message, get_state; simpl.
  by rewrite last_is_assistant_snoc, Hjson.
Qed.

(** *** get_completion *)

Lemma get_completion_body_cons response script' role_name model temperature top_p
    functions st provider st1 :
  get_provider_completion st = (Ok provider, st1) ->
  get_completion_body (response :: script') role_name model temperature top_p functions st
  = try_except_KeyboardInterrupt
      (for_chunks
         (on_tool_calls script' role_name model temperature top_p
            (resolved_functions role_name functions))
         response acc0)
      (emit (Close response))
      (add_log [provider_call provider role_name model temperature top_p functions st1] st1).
Proof. intros H. simpl. unfold bind at 1. by rewrite H. Qed.

Lemma set_store_id st : set_store (store st) st = st.
Proof. by destruct st. Qed.

Lemma cache_miss caching model temperature top_p functions producer st :
  cache_hit caching model temperature top_p functions st = false ->
  exists s,
    cache caching model temperature top_p functions producer st
    = ((producer (add_log [GetCompletion caching] st)).1,
       set_store s (producer (add_log [GetCompletion caching] st)).2).
Proof.
  unfold cache_hit, cache. intros Hmiss.
  destruct caching; simpl in *.
  - apply bool_decide_eq_false in Hmiss.
    unfold bind at 1. simpl. unfold bind at 1. simpl.
    destruct (store st !! _) eqn:Hs; [by destruct Hmiss; eauto|].
    unfold bind. destruct (producer _) as [[[]|e] st'] eqn:Hp; simpl.
    + destruct (existsb _ _); eexists; [by rewrite set_store_id|done].
    + exists (store st'). by rewrite set_store_id.
  - exists (store (producer (add_log [GetCompletion false] st)).2).
    rewrite set_store_id. unfold bind. simpl.
    by destruct (producer _).
Qed.

(** The decorated call, when it is not answered from the store, on a
    script whose first response is [response]. *)
Lemma get_completion_run caching response script' role_name model temperature top_p
    functions st :
  cache_hit caching model temperature top_p functions st = false ->
  gateway_ready st = true ->
  exists provider st1 gw s,
    completion st1 = Some provider.1 /\ completion_kwargs st1 = provider.2
    /\ messages st1 = messages st /\ yielded st1 = yielded st /\ cfg st1 = cfg st
    /\ log st1 = log st ++ GetCompletion caching :: gw
    /\ forallb gateway_event gw = true
    /\ let r := try_except_KeyboardInterrupt
                  (for_chunks
                     (on_tool_calls script' role_name model temperature top_p
                        (resolved_functions role_name functions))
                     response acc0)
                  (emit (Close response))
                  (add_log
                     [provider_call provider role_name model temperature top_p functions st1]
                     st1) in
       get_completion caching (response :: script') role_name model temperature top_p
         functions st
       = (r.1, set_store s r.2).
Proof.
  intros Hmiss Hready. unfold get_completion.
  destruct (cache_miss caching model temperature top_p functions
              (get_completion_body (response :: script') role_name model temperature top_p
                 functions) st Hmiss) as [s Hs].
  destruct (gateway_ready_ok (add_log [GetCompletion caching] st) Hready)
    as (provider & st1 & Hgw).
  destruct (gateway_memo _ _ _ Hgw) as (Hc & Hkw & Hm & Hy & Hcfg & _ & gw & Hlog & Hgwev).
  exists provider, st1, gw, s. simpl in Hm, Hy, Hcfg, Hlog.
  rewrite <- app_assoc in Hlog. repeat split; try done.
  cbv zeta. rewrite Hs. by rewrite (get_completion_body_cons _ _ _ _ _ _ _ _ provider st1 Hgw).
Qed.

(** Lists that differ in how their appends are nested. *)
Ltac reassoc := repeat (rewrite <- app_assoc || rewrite <- app_comm_cons); simpl.

Lemma count_app f evs1 evs2 : count f (evs1 ++ evs2) = count f evs1 + count f evs2.
Proof. unfold count. by rewrite List.filter_app, length_app. Qed.

Lemma filter_gateway f gw :
  (forall ev, gateway_event ev = true -> f ev = false) ->
  forallb gateway_event gw = true -> List.filter f gw = [].
Proof.
  intros Hf. induction gw as [|ev gw IH]; simpl; [done|].
  intros [Hev Hgw]%andb_prop. rewrite (Hf ev Hev). by apply IH.
Qed.

Lemma count_gateway f gw :
  (forall ev, gateway_event ev = true -> f ev = false) ->
  forallb gateway_event gw = true -> count f gw = 0.
Proof. intros Hf Hgw. unfold count. by rewrite (filter_gateway f gw Hf Hgw). Qed.

Lemma gateway_not_FunctionCall ev : gateway_event ev = true -> is_FunctionCall ev = false.
Proof. by destruct ev. Qed.

Lemma gateway_not_ProviderCall ev : gateway_event ev = true -> is_ProviderCall ev = false.
Proof. by destruct ev. Qed.



(** ** The claims *)


(** C10.  When the accumulated arguments do not parse,
    [handle_function_call] raises after it has appended the assistant
    message that records the tool call: the message list is left one
    message longer, that message is not a tool-role message, and nothing
    rolls it back. *)
Theorem parse_failure_keeps_assistant_message tool_call_id name arguments st :
  json_loads arguments = None ->
  let r := handle_function_call tool_call_id name arguments st in
  r.1 = Raise (JSONDecodeError arguments)
  /\ messages r.2 = messages st ++ [assistant_message tool_call_id name arguments]
  /\ role (assistant_message tool_call_id name arguments) = "assistant"
  /\ length (messages r.2) = S (length (messages st)).
Proof.
  intros Hjson. simpl. rewrite (handle_function_call_bad_json _ _ _ _ Hjson). simpl.
  repeat split; try done. rewrite length_app. simpl. lia.
Qed.

(** C5.  An interrupt raised while [get_completion] waits for the next
    chunk: the call ends normally, it has yielded exactly the fragments of
    the chunks before the interrupt, the message list is untouched, and
    the last thing it did was to close the response. *)
Theorem interrupt_closes_stream caching pre post script' role_name model temperature top_p
    functions st acc :
  cache_hit caching model temperature top_p functions st = false ->
  gateway_ready st = true ->
  forallb plain_item pre = true ->
  accumulate_all use_litellm (deltas pre) acc0 = Ok acc ->
  let response := pre ++ Throw KeyboardInterrupt :: post in
  let r := get_completion caching (response :: script') role_name model temperature top_p
             functions st in
  r.1 = Ok tt
  /\ yielded r.2 = yielded st ++ fragments pre
  /\ messages r.2 = messages st
  /\ exists evs, log r.2 = log st ++ evs ++ [Close response].
Proof.
  intros Hmiss Hready Hplain Hacc. cbv zeta.
  destruct (get_completion_run caching (pre ++ Throw KeyboardInterrupt :: post) script' role_name model temperature top_p
              functions st Hmiss Hready)
    as (provider & st1 & gw & s & _ & _ & Hm & Hy & _ & Hlog & _ & Hrun).
  cbv zeta in Hrun. rewrite Hrun. clear Hrun.
  unfold try_except_KeyboardInterrupt.
  rewrite (for_chunks_throw _ pre KeyboardInterrupt post acc0 acc _ Hplain Hacc). simpl.
  rewrite Hy, Hm, Hlog. repeat split; try done.
  eexists (GetCompletion caching :: gw ++ [_]). by reassoc.
Qed.

(** C9.  When the arguments accumulated up to the [tool_calls] chunk do
    not parse, [get_completion] raises the decoding error, which carries
    the raw argument text; no function was called, and the provider was
    called once: nothing is retried. *)
Theorem malformed_arguments_are_fatal caching pre chunk post script' role_name model
    temperature top_p functions st acc :
  cache_hit caching model temperature top_p functions st = false ->
  gateway_ready st = true ->
  forallb plain_item pre = true ->
  tool_call_chunk chunk = true ->
  accumulate_all use_litellm (deltas (pre ++ [Item chunk])) acc0 = Ok acc ->
  json_loads (acc_arguments acc) = None ->
  let r := get_completion caching ((pre ++ Item chunk :: post) :: script') role_name model
             temperature top_p functions st in
  r.1 = Raise (JSONDecodeError (acc_arguments acc))
  /\ exists evs, log r.2 = log st ++ evs
                 /\ count is_FunctionCall evs = 0
                 /\ count is_ProviderCall evs = 1.
Proof.
  intros Hmiss Hready Hplain Hchunk Hacc Hjson. cbv zeta.
  destruct (get_completion_run caching (pre ++ Item chunk :: post) script' role_name model
              temperature top_p functions st Hmiss Hready)
    as (provider & st1 & gw & s & _ & _ & Hm & Hy & _ & Hlog & Hgw & Hrun).
  cbv zeta in Hrun. rewrite Hrun. clear Hrun.
  unfold try_except_KeyboardInterrupt.
  rewrite (for_chunks_tool_call _ pre chunk post acc0 acc _ Hplain Hchunk Hacc).
  unfold on_tool_calls, bind.
  rewrite (handle_function_call_bad_json _ _ _ _ Hjson). simpl.
  split; [done|]. rewrite Hlog.
  eexists (GetCompletion caching :: gw ++ [_]).
  split; [by reassoc|].
  change (GetCompletion caching :: gw ++ [?ev]) with ([GetCompletion caching] ++ gw ++ [ev]).
  rewrite !count_app, !(count_gateway _ gw); try done.
  - apply gateway_not_ProviderCall.
  - apply gateway_not_FunctionCall.
Qed.

(** Every request of a run carries the tool fields of the resolved list. *)
Lemma get_completion_requests caching script role_name model temperature top_p functions st :
  tool_free (completion_kwargs st) ->
  exists evs,
    log (get_completion caching script role_name model temperature top_p functions st).2
    = log st ++ GetCompletion caching :: evs
    /\ Forall (request_event (resolved_functions role_name functions)) evs.
Proof.
  intros H. unfold get_completion.
  pose proof (sound_cache tool_free
                (request_event (resolved_functions role_name functions))) as Hcache.
  apply Hcache; [done| |exact H].
  pose proof (sound_get_completion_body tool_free
                (request_event (resolved_functions role_name functions))
                (resolved_functions role_name functions)) as Hbody.
  apply Hbody; try done.
  intros c m t p msgs kw Hkw. simpl. by apply tool_fields_build.
Qed.

(** C2.  For a request whose role is one of the three built-in roles,
    no provider call of the run receives tool schemas, whatever list of
    functions the caller supplies: the [tools] argument (and with it
    [tool_choice] and [parallel_tool_calls]) is absent from every
    request.  The caller in [app.py] resolves no schemas for these roles
    either.  The memoized provider kwargs carry no tool field to begin
    with; the gateway never writes one. *)
Theorem reserved_roles_never_send_tools caching script role_name model temperature top_p
    functions st :
  role_name = SHELL \/ role_name = CODE \/ role_name = DESCRIBE_SHELL ->
  tool_free (completion_kwargs st) ->
  (exists evs,
      log (get_completion caching script role_name model temperature top_p functions st).2
      = log st ++ evs
      /\ Forall (fun ev => forall c m t p msgs kw,
                   ev = ProviderCall c m t p msgs kw ->
                   kw !! "tools" = None /\ kw !! "tool_choice" = None
                   /\ kw !! "parallel_tool_calls" = None) evs)
  /\ forall use_functions get_openai_schemas,
       function_schemas use_functions role_name get_openai_schemas = None.
Proof.
  intros Hrole H.
  assert (is_reserved_role role_name = true) as Hres.
  { unfold is_reserved_role. repeat case_bool_decide; simpl; try done. tauto. }
  split.
  - destruct (get_completion_requests caching script role_name model temperature top_p
                functions st H) as (evs & Hlog & Hevs).
    exists (GetCompletion caching :: evs). split; [done|].
    constructor; [done|]. eapply Forall_impl; [exact Hevs|].
    intros ev Hev c m t p msgs kw ->. simpl in Hev.
    unfold resolved_functions in Hev. rewrite Hres in Hev.
    destruct Hev as (? & ? & ?). done.
  - intros use_functions schemas. unfold function_schemas, role_supports_functions.
    fold (is_reserved_role role_name). rewrite Hres. by rewrite andb_false_r.
Qed.

(** *** Tool messages and nested invocations *)

Lemma count_snoc f evs ev :
  count f (evs ++ [ev]) = count f evs + (if f ev then 1 else 0).
Proof. rewrite count_app. unfold count at 2. simpl. by destruct (f ev). Qed.

Lemma tool_messages_snoc msgs m :
  length (List.filter is_tool_message (msgs ++ [m]))
  = length (List.filter is_tool_message msgs) + (if is_tool_message m then 1 else 0).
Proof. rewrite List.filter_app, length_app. simpl. by destruct (is_tool_message m). Qed.

Lemma balanced_quiet {A} (m : M A) :
  (forall st, messages (m st).2 = messages st /\ log (m st).2 = log st) -> balanced m.
Proof.
  intros Hm st. exists 0. destruct (Hm st) as [Hmsgs Hlog].
  unfold tool_messages, invocations. rewrite Hmsgs, Hlog. lia.
Qed.

Lemma balanced_emit ev : is_GetCompletion ev = false -> balanced (emit ev).
Proof.
  intros Hev st. exists 0. unfold tool_messages, invocations. simpl.
  rewrite count_app. unfold count at 2. simpl. rewrite Hev. simpl. lia.
Qed.

Lemma balanced_cfg_get key : balanced (cfg_get key).
Proof. exact (balanced_emit (CfgGet key) eq_refl). Qed.

Lemma balanced_bind {A B} (m : M A) (k : A -> M B) :
  balanced m -> (forall a, balanced (k a)) -> balanced (bind m k).
Proof.
  intros Hm Hk st. unfold bind. destruct (Hm st) as (n1 & Ht1 & Hi1).
  destruct (m st) as [[a|e] st1]; simpl in *; [|by exists n1].
  destruct (Hk a st1) as (n2 & Ht2 & Hi2). exists (n1 + n2). lia.
Qed.

Lemma balanced_try (body handler : M unit) :
  balanced body -> balanced handler -> balanced (try_except_KeyboardInterrupt body handler).
Proof.
  intros Hb Hh st. unfold try_except_KeyboardInterrupt.
  destruct (Hb st) as (n1 & Ht1 & Hi1).
  destruct (body st) as [[a|e] st1]; simpl in *; [by exists n1|].
  destruct (Hh st1) as (n2 & Ht2 & Hi2).
  destruct e; simpl; try (by exists n1). exists (n1 + n2). lia.
Qed.

Lemma balanced_yield_all frags : balanced (yield_all frags).
Proof.
  induction frags as [|s frags IH]; simpl; [by apply balanced_quiet|].
  apply balanced_bind; [by apply balanced_quiet | intros _; exact IH].
Qed.

Lemma balanced_for_chunks (k : Acc -> M unit) response :
  (forall acc, balanced (k acc)) -> forall acc, balanced (for_chunks k response acc).
Proof.
  intros Hk. induction response as [|[chunk|e] response IH]; intros acc; simpl.
  - by apply balanced_quiet.
  - destruct (choices chunk) as [|choice ?]; [apply IH|].
    apply balanced_bind; [by apply balanced_quiet|]. intros acc'.
    destruct (is_tool_calls _); [apply Hk|].
    apply balanced_bind; [by apply balanced_quiet | intros _; apply IH].
  - by apply balanced_quiet.
Qed.

Lemma balanced_get_provider_completion : balanced get_provider_completion.
Proof.
  unfold get_provider_completion.
  apply balanced_bind; [by apply balanced_quiet|]. intros st.
  destruct (completion st); [by apply balanced_quiet|].
  apply balanced_bind; [apply balanced_cfg_get|]. intros base_url.
  apply balanced_bind; [apply balanced_cfg_get|]. intros request_timeout.
  destruct (py_int request_timeout) as [timeout|]; [|by apply balanced_quiet].
  apply balanced_bind; [apply balanced_cfg_get|]. intros api_key.
  destruct use_litellm.
  - apply balanced_bind; [|intros]; by apply balanced_quiet.
  - apply balanced_bind; [by apply balanced_emit|]. intros _.
    apply balanced_bind; [|intros]; by apply balanced_quiet.
Qed.

(** A tool call makes no invocation; it appends one tool-role message
    when it returns and none when it raises. *)
Lemma handle_function_call_effect tool_call_id name arguments st :
  let r := handle_function_call tool_call_id name arguments st in
  invocations r.2 = invocations st
  /\ tool_messages r.2
     = tool_messages st + (match r.1 with Ok _ => 1 | Raise _ => 0 end).
Proof.
  unfold handle_function_call, bind, append_message, get_state, cfg_get, of_result; simpl.
  rewrite last_is_assistant_snoc; simpl.
  unfold tool_messages, invocations.
  destruct (json_loads arguments) as [[dict_args|v]|]; simpl;
    rewrite ?tool_messages_snoc; simpl; try lia.
  destruct (get_function name) as [f|]; simpl;
    rewrite ?tool_messages_snoc; simpl; try lia.
  destruct (f dict_args) as [result|e]; simpl;
    rewrite ?tool_messages_snoc, ?count_snoc; simpl; try lia.
  destruct (decide _); simpl; rewrite ?tool_messages_snoc, ?count_snoc; simpl; lia.
Qed.

Lemma balanced_on_tool_calls script' role_name model temperature top_p functions acc :
  balanced (get_completion_body script' role_name model temperature top_p functions) ->
  balanced (on_tool_calls script' role_name model temperature top_p functions acc).
Proof.
  intros Hbody st. unfold on_tool_calls, bind.
  pose proof (handle_function_call_effect (acc_id acc) (acc_name acc) (acc_arguments acc) st)
    as [Hi Ht]. cbv zeta in Hi, Ht.
  destruct (handle_function_call _ _ _ st) as [[[]|e] st1]; simpl in *; [|exists 0; lia].
  unfold cache, bind. rewrite emit_add_log.
  destruct (Hbody (add_log [GetCompletion false] st1)) as (n & Ht2 & Hi2).
  exists (1 + n). split.
  - rewrite Ht2. unfold tool_messages in *. simpl. lia.
  - rewrite Hi2. unfold invocations in *. simpl. rewrite count_snoc. simpl. lia.
Qed.

Lemma balanced_get_completion_body script :
  forall role_name model temperature top_p functions,
    balanced (get_completion_body script role_name model temperature top_p functions).
Proof.
  induction script as [|response script' IH];
    intros role_name model temperature top_p functions;
    rewrite get_completion_body_eq;
    (apply balanced_bind; [apply balanced_get_provider_completion|]); intros provider;
    (apply balanced_bind; [by apply balanced_quiet|]); intros st0;
    (apply balanced_bind; [by apply balanced_emit|]); intros _.
  - by apply balanced_quiet.
  - apply balanced_try; [|by apply balanced_emit].
    apply balanced_for_chunks. intros acc. apply balanced_on_tool_calls, IH.
Qed.

(** The decorated call makes one invocation more than its producer. *)
Lemma balanced_cache caching model temperature top_p functions (producer : M unit) st :
  balanced producer ->
  exists n,
    tool_messages (cache caching model temperature top_p functions producer st).2
    = tool_messages st + n
    /\ invocations (cache caching model temperature top_p functions producer st).2
       = invocations st + 1 + n.
Proof.
  intros Hprod. unfold cache. unfold bind at 1. rewrite emit_add_log.
  assert (forall (m : M unit), balanced m ->
            exists n,
              tool_messages (m (add_log [GetCompletion caching] st)).2 = tool_messages st + n
              /\ invocations (m (add_log [GetCompletion caching] st)).2
                 = invocations st + 1 + n) as Hrun.
  { intros m Hm. destruct (Hm (add_log [GetCompletion caching] st)) as (n & Ht & Hi).
    exists n. split; [exact Ht|]. rewrite Hi. unfold invocations. simpl.
    rewrite count_snoc. simpl. lia. }
  destruct caching; [|by apply Hrun].
  apply Hrun. apply balanced_bind; [by apply balanced_quiet|]. intros st1.
  destruct (store st1 !! _).
  - apply balanced_bind; [by apply balanced_emit|]. intros _. apply balanced_yield_all.
  - apply balanced_bind; [exact Hprod|]. intros _.
    apply balanced_quiet. intros st2. by destruct (existsb _ _).
Qed.


(** ** Further properties of the handler *)

Lemma appends_quiet {A} (m : M A) :
  (forall st, messages (m st).2 = messages st /\ yielded (m st).2 = yielded st) -> appends m.
Proof.
  intros Hm st. exists [], []. destruct (Hm st) as [-> ->].
  by rewrite !app_nil_r.
Qed.

Lemma appends_yield s : appends (yield s).
Proof. intros st. exists [], [s]. simpl. by rewrite app_nil_r. Qed.

Lemma appends_append_message m : tool_turn m -> appends (append_message m).
Proof.
  intros Hm st. exists [m], []. simpl. rewrite app_nil_r.
  split; [done|]. split; [by constructor|done].
Qed.

Lemma appends_bind {A B} (m : M A) (k : A -> M B) :
  appends m -> (forall a, appends (k a)) -> appends (bind m k).
Proof.
  intros Hm Hk st. unfold bind. destruct (Hm st) as (added1 & out1 & Hm1 & Ht1 & Hy1).
  destruct (m st) as [[a|e] st1]; simpl in *; [|by exists added1, out1].
  destruct (Hk a st1) as (added2 & out2 & Hm2 & Ht2 & Hy2).
  exists (added1 ++ added2), (out1 ++ out2).
  rewrite Hm2, Hm1, Hy2, Hy1, !app_assoc. split; [done|]. split; [|done].
  by apply Forall_app.
Qed.

Lemma appends_try (body handler : M unit) :
  appends body -> appends handler -> appends (try_except_KeyboardInterrupt body handler).
Proof.
  intros Hb Hh st. unfold try_except_KeyboardInterrupt.
  destruct (Hb st) as (added1 & out1 & Hm1 & Ht1 & Hy1).
  destruct (body st) as [[a|e] st1]; simpl in *; [by exists added1, out1|].
  destruct (Hh st1) as (added2 & out2 & Hm2 & Ht2 & Hy2).
  destruct e; simpl; try (by exists added1, out1).
  exists (added1 ++ added2), (out1 ++ out2).
  rewrite Hm2, Hm1, Hy2, Hy1, !app_assoc. split; [done|]. split; [|done].
  by apply Forall_app.
Qed.

Lemma appends_yield_all frags : appends (yield_all frags).
Proof.
  induction frags as [|s frags IH]; simpl; [by apply appends_quiet|].
  apply appends_bind; [apply appends_yield | intros _; exact IH].
Qed.

Lemma appends_for_chunks (k : Acc -> M unit) response :
  (forall acc, appends (k acc)) -> forall acc, appends (for_chunks k response acc).
Proof.
  intros Hk. induction response as [|[chunk|e] response IH]; intros acc; simpl.
  - by apply appends_quiet.
  - destruct (choices chunk) as [|choice ?]; [apply IH|].
    apply appends_bind; [by apply appends_quiet|]. intros acc'.
    destruct (is_tool_calls _); [apply Hk|].
    apply appends_bind; [apply appends_yield | intros _; apply IH].
  - by apply appends_quiet.
Qed.

Lemma appends_get_provider_completion : appends get_provider_completion.
Proof.
  unfold get_provider_completion.
  apply appends_bind; [by apply appends_quiet|]. intros st.
  destruct (completion st); [by apply appends_quiet|].
  apply appends_bind; [by apply appends_quiet|]. intros base_url.
  apply appends_bind; [by apply appends_quiet|]. intros request_timeout.
  destruct (py_int request_timeout) as [timeout|]; [|by apply appends_quiet].
  apply appends_bind; [by apply appends_quiet|]. intros api_key.
  destruct use_litellm.
  - apply appends_bind; [|intros]; by apply appends_quiet.
  - apply appends_bind; [by apply appends_quiet|]. intros _.
    apply appends_bind; [|intros]; by apply appends_quiet.
Qed.

Lemma appends_handle_function_call tool_call_id name arguments :
  appends (handle_function_call tool_call_id name arguments).
Proof.
  unfold handle_function_call.
  apply appends_bind; [apply appends_append_message; by left|]. intros _.
  apply appends_bind; [by apply appends_quiet|]. intros st.
  apply appends_bind;
    [destruct (last_is_assistant _); [apply appends_yield|by apply appends_quiet]|].
  intros _. destruct (json_loads arguments) as [[dict_args|v]|]; try by apply appends_quiet.
  apply appends_bind; [apply appends_yield|]. intros _.
  destruct (get_function name) as [f|]; [|by apply appends_quiet].
  apply appends_bind; [by apply appends_quiet|]. intros _.
  apply appends_bind; [by apply appends_quiet|]. intros result.
  apply appends_bind; [by apply appends_quiet|]. intros show.
  apply appends_bind; [|intros; apply appends_append_message; by right].
  destruct (decide _); [apply appends_yield|by apply appends_quiet].
Qed.

Lemma appends_cache caching model temperature top_p functions (producer : M unit) :
  appends producer -> appends (cache caching model temperature top_p functions producer).
Proof.
  intros Hprod. unfold cache.
  apply appends_bind; [by apply appends_quiet|]. intros _.
  destruct caching; [|exact Hprod].
  apply appends_bind; [by apply appends_quiet|]. intros st1.
  destruct (store st1 !! _).
  - apply appends_bind; [by apply appends_quiet|]. intros _. apply appends_yield_all.
  - apply appends_bind; [exact Hprod|]. intros _.
    apply appends_quiet. intros st2. by destruct (existsb _ _).
Qed.

Lemma appends_get_completion_body script :
  forall role_name model temperature top_p functions,
    appends (get_completion_body script role_name model temperature top_p functions).
Proof.
  induction script as [|response script' IH];
    intros role_name model temperature top_p functions;
    rewrite get_completion_body_eq;
    (apply appends_bind; [apply appends_get_provider_completion|]); intros provider;
    (apply appends_bind; [by apply appends_quiet|]); intros st0;
    (apply appends_bind; [by apply appends_quiet|]); intros _.
  - by apply appends_quiet.
  - apply appends_try; [|by apply appends_quiet].
    apply appends_for_chunks. intros acc. unfold on_tool_calls.
    apply appends_bind; [apply appends_handle_function_call|]. intros _.
    apply appends_cache, IH.
Qed.

(** A run of [get_completion] never drops or rewrites what it was given:
    whatever the provider answers and however the run ends, the message
    list afterwards is the list before followed by assistant and tool
    messages, and the output is the output before followed by fragments. *)
Theorem get_completion_only_appends caching script role_name model temperature top_p
    functions st :
  let r := get_completion caching script role_name model temperature top_p functions st in
  exists added out,
    messages r.2 = messages st ++ added
    /\ Forall (fun m => role m = "assistant" \/ role m = "tool") added
    /\ yielded r.2 = yielded st ++ out.
Proof.
  cbv zeta. unfold get_completion.
  apply appends_cache, appends_get_completion_body.
Qed.

Lemma sound_body_parameters script :
  forall role_name model temperature top_p functions,
    sound (fun _ => True) (same_parameters model temperature top_p)
      (get_completion_body script role_name model temperature top_p functions).
Proof.
  induction script as [|response script' IH];
    intros role_name model temperature top_p functions;
    rewrite get_completion_body_eq;
    (apply sound_bind_gateway; try done); intros c kw _;
    (apply sound_bind; [apply sound_get_state|]); intros st0;
    (apply sound_bind; [by apply sound_emit|]); intros _.
  - apply sound_raise.
  - apply sound_try; [|by apply sound_emit].
    apply sound_for_chunks. intros acc. unfold on_tool_calls.
    apply sound_bind; [by apply sound_handle_function_call|]. intros _.
    unfold cache. apply sound_bind; [by apply sound_emit|]. intros _. apply IH.
Qed.

(** Every provider call of a run, the calls that follow a tool call
    included, is made with the model, the temperature and the top_p the
    caller gave. *)
Theorem provider_calls_keep_parameters caching script role_name model temperature top_p
    functions st :
  let r := get_completion caching script role_name model temperature top_p functions st in
  exists evs,
    log r.2 = log st ++ evs
    /\ Forall (fun ev => forall c m t p msgs kw,
                 ev = ProviderCall c m t p msgs kw ->
                 m = model /\ t = temperature /\ p = top_p) evs.
Proof.
  cbv zeta. unfold get_completion.
  destruct (sound_cache (fun _ => True) (same_parameters model temperature top_p) caching
              model temperature top_p functions
              (get_completion_body script role_name model temperature top_p functions))
    with (st := st) as (evs & Hlog & Hevs); try done.
  - apply sound_body_parameters.
  - exists (GetCompletion caching :: evs). split; [done|].
    constructor; [done|]. eapply Forall_impl; [exact Hevs|].
    intros ev Hev c m t p msgs kw ->. exact Hev.
Qed.

Lemma keyless_build kw functions :
  kw !! "api_key" = None -> build_request_kwargs kw functions !! "api_key" = None.
Proof.
  intros H. destruct functions as [[|s ss]|]; simpl; try exact H.
  by rewrite !lookup_insert_ne.
Qed.

(** The API key never travels in a request: when the memoized kwargs hold
    none (they start empty), no provider call of a run has an [api_key]
    keyword.  With LiteLLM the gateway pops it, with OpenAI only the client
    is given it. *)
Theorem requests_never_carry_api_key caching script role_name model temperature top_p
    functions st :
  completion_kwargs st !! "api_key" = None ->
  let r := get_completion caching script role_name model temperature top_p functions st in
  exists evs,
    log r.2 = log st ++ evs
    /\ Forall (fun ev => forall c m t p msgs kw,
                 ev = ProviderCall c m t p msgs kw -> kw !! "api_key" = None) evs.
Proof.
  intros H. cbv zeta. unfold get_completion.
  pose proof (sound_cache (fun kw => kw !! "api_key" = None) keyless) as Hcache.
  destruct (Hcache caching model temperature top_p functions
              (get_completion_body script role_name model temperature top_p functions))
    with (st := st) as (evs & Hlog & Hevs); try done.
  - pose proof (sound_get_completion_body (fun kw => kw !! "api_key" = None) keyless
                  (resolved_functions role_name functions)) as Hbody.
    apply Hbody; try done.
    intros c m t p msgs kw Hkw. simpl. by apply keyless_build.
  - exists (GetCompletion caching :: evs). split; [done|].
    constructor; [done|]. eapply Forall_impl; [exact Hevs|].
    intros ev Hev c m t p msgs kw ->. exact Hev.
Qed.

Lemma gateway_not_Close ev : gateway_event ev = true -> is_Close ev = false.
Proof. by destruct ev. Qed.

(** An exception other than an interrupt raised while the response is
    read (a transport error) leaves [get_completion] as it is: the
    fragments of the chunks before it were yielded, the message list is
    untouched, the provider was called once, and the handler did not close
    the response. *)
Theorem transport_error_propagates caching pre e post script' role_name model temperature
    top_p functions st acc :
  cache_hit caching model temperature top_p functions st = false ->
  gateway_ready st = true ->
  forallb plain_item pre = true ->
  accumulate_all use_litellm (deltas pre) acc0 = Ok acc ->
  e <> KeyboardInterrupt ->
  let response := pre ++ Throw e :: post in
  let r := get_completion caching (response :: script') role_name model temperature top_p
             functions st in
  r.1 = Raise e
  /\ yielded r.2 = yielded st ++ fragments pre
  /\ messages r.2 = messages st
  /\ exists evs, log r.2 = log st ++ evs
                 /\ count is_Close evs = 0
                 /\ count is_ProviderCall evs = 1.
Proof.
  intros Hmiss Hready Hplain Hacc He. cbv zeta.
  destruct (get_completion_run caching (pre ++ Throw e :: post) script'
              role_name model temperature top_p functions st Hmiss Hready)
    as (provider & st1 & gw & s & _ & _ & Hm & Hy & _ & Hlog & Hgw & Hrun).
  cbv zeta in Hrun. rewrite Hrun. clear Hrun.
  unfold try_except_KeyboardInterrupt.
  rewrite (for_chunks_throw _ pre e post acc0 acc _ Hplain Hacc).
  assert (exists evs, log st1 ++ [provider_call provider role_name model temperature top_p
                                      functions st1] = log st ++ evs
                      /\ count is_Close evs = 0 /\ count is_ProviderCall evs = 1) as Hevs.
  { rewrite Hlog. eexists (GetCompletion caching :: gw ++ [_]). split; [by reassoc|].
    change (GetCompletion caching :: gw ++ [?ev]) with ([GetCompletion caching] ++ gw ++ [ev]).
    rewrite !count_app, !(count_gateway _ gw); try done.
    - apply gateway_not_ProviderCall.
    - apply gateway_not_Close. }
  destruct e; [done|..]; simpl; rewrite Hy, Hm; by repeat split.
Qed.

Lemma for_chunks_stops_at_tool_calls k pre chunk post acc st :
  tool_call_chunk chunk = true ->
  for_chunks k (pre ++ Item chunk :: post) acc st = for_chunks k (pre ++ [Item chunk]) acc st.
Proof.
  intros Hchunk. revert acc st.
  induction pre as [|[c|e] pre IH]; intros acc st; simpl.
  - unfold tool_call_chunk in Hchunk.
    destruct (choices chunk) as [|choice ?]; [done|].
    unfold bind. destruct (of_result _ st) as [[acc'|e] st']; [|done].
    by rewrite Hchunk.
  - destruct (choices c) as [|choice ?]; [apply IH|].
    unfold bind. destruct (of_result _ st) as [[acc'|e] st']; [|done].
    destruct (is_tool_calls _); [done|].
    destruct (yield _ st') as [[[]|e] st'']; [apply IH|done].
  - done.
Qed.

Lemma get_completion_body_gateway_fails script role_name model temperature top_p functions
    st e st1 :
  get_provider_completion st = (Raise e, st1) ->
  get_completion_body script role_name model temperature top_p functions st = (Raise e, st1).
Proof. intros H. rewrite get_completion_body_eq. unfold bind at 1. by rewrite H. Qed.

(** The undecorated [get_completion] returns from inside the loop at the
    first chunk that finishes with [tool_calls]: what the response holds
    after that chunk changes neither how the call ends, nor its output, nor
    the message list. *)
Theorem chunks_after_tool_calls_are_ignored pre chunk post script' role_name model
    temperature top_p functions st :
  tool_call_chunk chunk = true ->
  let r1 := get_completion_body ((pre ++ Item chunk :: post) :: script') role_name model
              temperature top_p functions st in
  let r2 := get_completion_body ((pre ++ [Item chunk]) :: script') role_name model
              temperature top_p functions st in
  r1.1 = r2.1 /\ yielded r1.2 = yielded r2.2 /\ messages r1.2 = messages r2.2.
Proof.
  intros Hchunk. cbv zeta.
  destruct (get_provider_completion st) as [[provider|e] st1] eqn:Hgw.
  - rewrite !(get_completion_body_cons _ _ _ _ _ _ _ _ _ _ Hgw).
    unfold try_except_KeyboardInterrupt.
    rewrite (for_chunks_stops_at_tool_calls _ pre chunk post _ _ Hchunk).
    destruct (for_chunks _ _ _ _) as [[[]|e] st']; [done|].
    by destruct e.
  - by rewrite !(get_completion_body_gateway_fails _ _ _ _ _ _ _ _ _ Hgw).
Qed.

(** When nothing is memoized and the configured timeout is not an
    integer, [get_completion] raises before it reads the API key, builds a
    client or calls the provider; it memoizes nothing, so a later call
    resolves the configuration afresh. *)
Theorem bad_timeout_stops_before_provider caching script role_name model temperature top_p
    functions st :
  cache_hit caching model temperature top_p functions st = false ->
  completion st = None ->
  py_int (cfg st "REQUEST_TIMEOUT") = None ->
  let r := get_completion caching script role_name model temperature top_p functions st in
  r.1 = Raise ValueError
  /\ completion r.2 = None
  /\ completion_kwargs r.2 = completion_kwargs st
  /\ yielded r.2 = yielded st
  /\ messages r.2 = messages st
  /\ log r.2 = log st ++ [GetCompletion caching; CfgGet "API_BASE_URL";
                          CfgGet "REQUEST_TIMEOUT"].
Proof.
  intros Hmiss Hc Hint. cbv zeta. unfold get_completion.
  destruct (cache_miss caching model temperature top_p functions
              (get_completion_body script role_name model temperature top_p functions)
              st Hmiss) as [s ->].
  assert (get_provider_completion (add_log [GetCompletion caching] st)
          = (Raise ValueError,
             add_log [CfgGet "API_BASE_URL"; CfgGet "REQUEST_TIMEOUT"]
               (add_log [GetCompletion caching] st))) as Hgw.
  { unfold get_provider_completion, bind, get_state, cfg_get. simpl.
    rewrite Hc. simpl. rewrite Hint. unfold add_log. simpl. by reassoc. }
  rewrite (get_completion_body_gateway_fails _ _ _ _ _ _ _ _ _ Hgw). simpl.
  repeat split; try done. by reassoc.
Qed.

(** ** The claims on the stream and on the recursion *)

(** The first message a tool call appends is the assistant message that
    records it; the nested call appends after it. *)
Lemma handle_function_call_records tool_call_id name arguments st :
  exists more,
    messages (handle_function_call tool_call_id name arguments st).2
    = messages st ++ assistant_message tool_call_id name arguments :: more.
Proof.
  unfold handle_function_call, bind, append_message, get_state, cfg_get, of_result; simpl.
  rewrite last_is_assistant_snoc; simpl.
  destruct (json_loads arguments) as [[dict_args|v]|]; simpl;
    try (exists []; by rewrite <- ?app_assoc).
  destruct (get_function name) as [f|]; simpl; [|exists []; by rewrite <- ?app_assoc].
  destruct (f dict_args) as [result|e]; simpl; [|exists []; by rewrite <- ?app_assoc].
  destruct (decide _); simpl; eexists [_]; by rewrite <- ?app_assoc.
Qed.

Lemma on_tool_calls_records script' role_name model temperature top_p functions acc st :
  exists more,
    messages (on_tool_calls script' role_name model temperature top_p functions acc st).2
    = messages st ++ assistant_message (acc_id acc) (acc_name acc) (acc_arguments acc) :: more.
Proof.
  unfold on_tool_calls, bind.
  destruct (handle_function_call_records (acc_id acc) (acc_name acc) (acc_arguments acc) st)
    as [more Hm].
  destruct (handle_function_call _ _ _ st) as [[[]|e] st1]; simpl in *; [|by exists more].
  destruct (appends_cache false model temperature top_p functions _
              (appends_get_completion_body script' role_name model temperature top_p functions)
              st1) as (added & out & Ha & _ & _).
  exists (more ++ added). rewrite Ha, Hm. by rewrite <- app_assoc.
Qed.

(** C4, as the code has it.  While the stream is drained, the tool-call
    deltas of all chunks up to the one that finishes with [tool_calls] are
    accumulated into one call in progress, whatever ids they carry: its id
    and its name are the last non-empty ones seen, its arguments are the
    fragments of all deltas joined in arrival order.  That call is what the
    loop hands on when the chunk arrives, and what [get_completion] records
    in the assistant message it appends. *)
Theorem deltas_accumulate_across_chunks caching pre chunk post script' role_name model
    temperature top_p functions st :
  forallb plain_item pre = true ->
  tool_call_chunk chunk = true ->
  forallb (well_formed use_litellm) (deltas (pre ++ [Item chunk])) = true ->
  let tcs := deltas (pre ++ [Item chunk]) in
  let tool_call_id := last_nonempty (map delta_id tcs) EmptyString in
  let name := last_nonempty (map delta_name tcs) EmptyString in
  let arguments := full_text (map delta_arguments tcs) in
  (forall k st',
      for_chunks k (pre ++ Item chunk :: post) acc0 st'
      = k {| acc_id := tool_call_id; acc_name := name; acc_arguments := arguments |}
          (add_yielded (fragments pre) st'))
  /\ (cache_hit caching model temperature top_p functions st = false ->
      gateway_ready st = true ->
      exists more,
        messages (get_completion caching ((pre ++ Item chunk :: post) :: script') role_name
                    model temperature top_p functions st).2
        = messages st ++ assistant_message tool_call_id name arguments :: more).
Proof.
  intros Hplain Hchunk Hwf. cbv zeta.
  pose proof (accumulate_all_last_nonempty use_litellm _ acc0 Hwf) as Hacc.
  change (acc_id acc0) with EmptyString in Hacc.
  change (acc_name acc0) with EmptyString in Hacc.
  change (acc_arguments acc0 +:+ ?x) with x in Hacc.
  assert (forall k st',
             for_chunks k (pre ++ Item chunk :: post) acc0 st'
             = k {| acc_id := last_nonempty (map delta_id (deltas (pre ++ [Item chunk])))
                                EmptyString;
                    acc_name := last_nonempty (map delta_name (deltas (pre ++ [Item chunk])))
                                  EmptyString;
                    acc_arguments := full_text (map delta_arguments
                                                  (deltas (pre ++ [Item chunk]))) |}
                 (add_yielded (fragments pre) st')) as Hloop.
  { intros k st'. by apply for_chunks_tool_call. }
  split; [exact Hloop|]. intros Hmiss Hready.
  destruct (get_completion_run caching (pre ++ Item chunk :: post) script'
              role_name model temperature top_p functions st Hmiss Hready)
    as (provider & st1 & gw & s & _ & _ & Hm & _ & _ & _ & _ & Hrun).
  cbv zeta in Hrun. rewrite Hrun. clear Hrun.
  unfold try_except_KeyboardInterrupt. rewrite Hloop.
  match goal with
  | |- context [on_tool_calls ?a ?b ?c ?d ?e ?f ?g ?h] =>
      destruct (on_tool_calls_records a b c d e f g h) as [more Hmore];
      destruct (on_tool_calls a b c d e f g h) as [[[]|e0] st2]
  end; simpl in Hmore; try destruct e0; simpl; rewrite Hmore; simpl; rewrite Hm;
    by exists more.
Qed.

(** The first thing the undecorated function logs once the gateway has
    answered is its request to the provider, on the message list as it
    stands. *)
Lemma get_completion_body_first_request script role_name model temperature top_p functions
    st provider st1 :
  get_provider_completion st = (Ok provider, st1) ->
  exists rest,
    log (get_completion_body script role_name model temperature top_p functions st).2
    = log st1 ++ provider_call provider role_name model temperature top_p functions st1 :: rest.
Proof.
  intros Hgw. rewrite get_completion_body_eq. unfold bind at 1. rewrite Hgw.
  unfold bind at 1. unfold get_state. unfold bind at 1. rewrite emit_add_log.
  match goal with
  | |- context [(?X (add_log ?evs st1)).2] =>
      assert (sound (fun _ => True) (fun _ => True) X) as HX
  end.
  { destruct script as [|response script']; [apply sound_raise|].
    apply sound_try; [|by apply sound_emit].
    apply sound_for_chunks. intros acc. unfold on_tool_calls.
    apply sound_bind; [by apply sound_handle_function_call|]. intros _.
    unfold cache. apply sound_bind; [by apply sound_emit|]. intros _.
    apply (sound_get_completion_body _ _ (resolved_functions role_name functions));
      try done. apply resolved_functions_idem. }
  match goal with
  | |- context [(?X (add_log ?evs st1)).2] =>
      destruct (HX (add_log evs st1) I) as (_ & rest & Hlog & _)
  end.
  exists rest. rewrite Hlog. simpl. by rewrite <- app_assoc.
Qed.

(** The decorated call, when it is not answered from the store, logs its
    invocation, what the gateway reads and builds, and then the request. *)
Lemma get_completion_first_request caching script role_name model temperature top_p
    functions st :
  cache_hit caching model temperature top_p functions st = false ->
  gateway_ready st = true ->
  exists provider gw rest,
    forallb gateway_event gw = true
    /\ (tool_free (completion_kwargs st) -> tool_free provider.2)
    /\ (forall c, completion st = Some c -> provider = (c, completion_kwargs st) /\ gw = [])
    /\ log (get_completion caching script role_name model temperature top_p functions st).2
       = log st ++ GetCompletion caching :: gw
           ++ ProviderCall provider.1 model temperature top_p (messages st)
                (build_request_kwargs provider.2 (resolved_functions role_name functions))
              :: rest.
Proof.
  intros Hmiss Hready. unfold get_completion.
  destruct (cache_miss caching model temperature top_p functions
              (get_completion_body script role_name model temperature top_p functions)
              st Hmiss) as [s Hs].
  destruct (gateway_ready_ok (add_log [GetCompletion caching] st) Hready)
    as (provider & st1 & Hgw).
  destruct (gateway_memo _ _ _ Hgw) as (_ & _ & Hm & _ & _ & _ & gw & Hlog & Hgwev).
  destruct (get_completion_body_first_request script role_name model temperature top_p
              functions _ provider st1 Hgw) as [rest Hrest].
  exists provider, gw, rest. split; [exact Hgwev|]. split; [|split].
  - intros Hfree.
    apply (get_provider_completion_kwargs tool_free tool_free_empty built_kwargs_tool_free
             (add_log [GetCompletion caching] st) provider.1 provider.2); [exact Hfree|].
    rewrite Hgw. by destruct provider.
  - intros c Hc. rewrite (gateway_hit (add_log [GetCompletion caching] st) c Hc) in Hgw.
    injection Hgw as <- <-. split; [done|].
    simpl in Hlog. apply (f_equal length) in Hlog. rewrite !length_app in Hlog.
    destruct gw; [done|]. simpl in Hlog. lia.
  - rewrite Hs. simpl. rewrite Hrest, Hlog. unfold provider_call. simpl in Hm. rewrite Hm.
    simpl. by rewrite <- !app_assoc.
Qed.

(** C6.  The provider request carries the tool fields exactly when the
    resolved schema list (the caller's list after the role override) is
    non-empty: then [tool_choice] is [auto], [tools] is the list and
    [parallel_tool_calls] is [False]; for an empty or absent list none of
    the three is sent, which is all that disabling tool calling for the
    request amounts to.  This holds of every request of a run, and a run
    that is not answered from the store does send such a request, on the
    caller's message list, right after the gateway has answered.  The
    caller in [app.py] passes the registry's schemas when function calling
    is on, the role is not a built-in one and the registry is not empty,
    and [None] otherwise, never an empty list. *)
Theorem tool_fields_iff_schemas caching script role_name model temperature top_p
    functions st :
  tool_free (completion_kwargs st) ->
  let r := get_completion caching script role_name model temperature top_p functions st in
  let carries kw :=
    match resolved_functions role_name functions with
    | Some (s :: ss) =>
        kw !! "tool_choice" = Some (KStr "auto")
        /\ kw !! "tools" = Some (KTools (s :: ss))
        /\ kw !! "parallel_tool_calls" = Some (KBool false)
    | _ =>
        kw !! "tool_choice" = None /\ kw !! "tools" = None
        /\ kw !! "parallel_tool_calls" = None
    end in
  (exists evs,
      log r.2 = log st ++ evs
      /\ Forall (fun ev => forall c m t p msgs kw,
                   ev = ProviderCall c m t p msgs kw -> carries kw) evs)
  /\ (cache_hit caching model temperature top_p functions st = false ->
      gateway_ready st = true ->
      exists c kw gw rest,
        forallb gateway_event gw = true
        /\ log r.2 = log st ++ GetCompletion caching :: gw
                       ++ ProviderCall c model temperature top_p (messages st) kw :: rest
        /\ carries kw)
  /\ forall use_functions get_openai_schemas l,
       function_schemas use_functions role_name get_openai_schemas = Some l
       <-> use_functions = true /\ is_reserved_role role_name = false
           /\ get_openai_schemas = l /\ l <> [].
Proof.
  intros H. cbv zeta. split; [|split].
  - destruct (get_completion_requests caching script role_name model temperature top_p
                functions st H) as (evs & Hlog & Hevs).
    exists (GetCompletion caching :: evs). split; [done|].
    constructor; [done|]. eapply Forall_impl; [exact Hevs|].
    intros ev Hev c m t p msgs kw ->. simpl in Hev. unfold tool_fields, tool_free in Hev.
    by destruct (resolved_functions role_name functions) as [[|s ss]|].
  - intros Hmiss Hready.
    destruct (get_completion_first_request caching script role_name model temperature top_p
                functions st Hmiss Hready) as (provider & gw & rest & Hgw & Hfree & _ & Hlog).
    exists provider.1,
      (build_request_kwargs provider.2 (resolved_functions role_name functions)), gw, rest.
    split; [exact Hgw|]. split; [exact Hlog|].
    pose proof (tool_fields_build provider.2 (resolved_functions role_name functions)
                  (Hfree H)) as Hfields.
    unfold tool_fields, tool_free in Hfields.
    by destruct (resolved_functions role_name functions) as [[|s ss]|].
  - intros use_functions schemas l. unfold function_schemas, role_supports_functions.
    fold (is_reserved_role role_name).
    destruct use_functions, (is_reserved_role role_name), schemas as [|s ss]; simpl;
      split; try done; try (by intros (? & ? & ? & ?)).
    + by intros [= <-].
    + by intros (_ & _ & -> & _).
Qed.

(** What lines 166-177 do when the call parses and the function returns:
    the call is made, and the decorated function is invoked again, with
    caching off, which sends the extended message list to the provider
    whatever the rest of the script holds. *)
Lemma on_tool_calls_recurses script' role_name model temperature top_p functions
    acc dict_args f result c st :
  json_loads (acc_arguments acc) = Some (JDict dict_args) ->
  get_function (acc_name acc) = Some f ->
  f dict_args = Ok result ->
  completion st = Some c ->
  let r := on_tool_calls script' role_name model temperature top_p
             (resolved_functions role_name functions) acc st in
  let extended :=
    messages st ++ [assistant_message (acc_id acc) (acc_name acc) (acc_arguments acc);
                    tool_message result (acc_id acc)] in
  exists rest more,
    log r.2
    = log st ++ [FunctionCall (acc_name acc) dict_args;
                 CfgGet "SHOW_FUNCTIONS_OUTPUT";
                 GetCompletion false;
                 ProviderCall c model temperature top_p extended
                   (build_request_kwargs (completion_kwargs st)
                      (resolved_functions role_name functions))] ++ rest
    /\ messages r.2 = extended ++ more.
Proof.
  intros Hjson Hfun Hres Hc. cbv zeta.
  unfold on_tool_calls, bind.
  rewrite (handle_function_call_ok _ _ _ _ _ _ _ Hjson Hfun Hres).
  set (st4 := after_function_call (acc_id acc) (acc_name acc) (acc_arguments acc)
                dict_args result st).
  change (cache false model temperature top_p (resolved_functions role_name functions)
            (get_completion_body script' role_name model temperature top_p
               (resolved_functions role_name functions)) st4)
    with (get_completion false script' role_name model temperature top_p
            (resolved_functions role_name functions) st4).
  assert (completion st4 = Some c) as Hc4 by exact Hc.
  destruct (get_completion_first_request false script' role_name model temperature top_p
              (resolved_functions role_name functions) st4)
    as (provider & gw & rest & _ & _ & Hmemo & Hlog).
  { done. }
  { unfold gateway_ready. by rewrite Hc4. }
  destruct (Hmemo c Hc4) as [-> ->].
  destruct (appends_cache false model temperature top_p
              (resolved_functions role_name functions) _
              (appends_get_completion_body script' role_name model temperature top_p
                 (resolved_functions role_name functions)) st4)
    as (more & out & Hmore & _ & _).
  exists rest, more. split.
  - rewrite Hlog. rewrite resolved_functions_idem. subst st4. simpl. by rewrite <- !app_assoc.
  - unfold get_completion. rewrite Hmore. done.
Qed.

(** C7.  Whatever caching flag the outer call was given and whatever the
    store holds, every invocation of [get_completion] made from inside
    the run passes [caching=False], and there is one such invocation for
    every tool-role message the run appends.  And the recursion is a new
    streaming call on the extended list: when the response ends in a
    [tool_calls] chunk, the accumulated call parses and the function
    returns, the run logs the call of the function, then the invocation of
    [get_completion] with [caching=False], then a request to the provider
    with the same parameters and kwargs whose message list is the caller's
    list followed by the assistant message and the tool message; these two
    messages stay at that place in the list.  This holds for every state
    and script, so for the nested invocations too. *)
Theorem recursive_call_disables_caching caching script role_name model temperature top_p
    functions st :
  let r := get_completion caching script role_name model temperature top_p functions st in
  (exists evs,
      log r.2 = log st ++ GetCompletion caching :: evs
      /\ Forall (fun ev => forall c, ev = GetCompletion c -> c = false) evs
      /\ tool_messages r.2 = tool_messages st + count is_GetCompletion evs)
  /\ forall pre chunk post script' acc dict_args f result,
       script = (pre ++ Item chunk :: post) :: script' ->
       cache_hit caching model temperature top_p functions st = false ->
       gateway_ready st = true ->
       forallb plain_item pre = true ->
       tool_call_chunk chunk = true ->
       accumulate_all use_litellm (deltas (pre ++ [Item chunk])) acc0 = Ok acc ->
       json_loads (acc_arguments acc) = Some (JDict dict_args) ->
       get_function (acc_name acc) = Some f ->
       f dict_args = Ok result ->
       let extended :=
         messages st ++ [assistant_message (acc_id acc) (acc_name acc) (acc_arguments acc);
                         tool_message result (acc_id acc)] in
       exists c kw gw rest more,
         forallb gateway_event gw = true
         /\ log r.2
            = log st ++ GetCompletion caching :: gw
                ++ [ProviderCall c model temperature top_p (messages st) kw;
                    FunctionCall (acc_name acc) dict_args;
                    CfgGet "SHOW_FUNCTIONS_OUTPUT";
                    GetCompletion false;
                    ProviderCall c model temperature top_p extended kw] ++ rest
         /\ messages r.2 = extended ++ more.
Proof.
  cbv zeta. split.
  - unfold get_completion.
    destruct (sound_cache (fun _ => True) nested_event caching model temperature top_p
                functions
                (get_completion_body script role_name model temperature top_p functions))
      with (st := st) as (evs & Hlog & Hevs); try done.
    + by apply (sound_get_completion_body _ _ (resolved_functions role_name functions)).
    + exists evs. split; [done|]. split.
      * eapply Forall_impl; [exact Hevs|]. by intros ev Hev c ->.
      * destruct (balanced_cache caching model temperature top_p functions
                    (get_completion_body script role_name model temperature top_p functions)
                    st (balanced_get_completion_body script role_name model temperature top_p
                          functions)) as (n & Ht & Hi).
        rewrite Ht. f_equal. unfold invocations in Hi. rewrite Hlog in Hi.
        change (GetCompletion caching :: evs) with ([GetCompletion caching] ++ evs) in Hi.
        rewrite !count_app in Hi. unfold count at 2 in Hi. simpl in Hi. lia.
  - intros pre chunk post script' acc dict_args f result -> Hmiss Hready Hplain Hchunk Hacc
           Hjson Hfun Hres.
    destruct (get_completion_run caching (pre ++ Item chunk :: post) script'
                role_name model temperature top_p functions st Hmiss Hready)
      as (provider & st1 & gw & s & Hc & Hkw & Hm & _ & _ & Hlog & Hgw & Hrun).
    cbv zeta in Hrun. rewrite Hrun. clear Hrun.
    unfold try_except_KeyboardInterrupt.
    rewrite (for_chunks_tool_call _ pre chunk post acc0 acc _ Hplain Hchunk Hacc).
    match goal with
    | |- context [on_tool_calls _ _ _ _ _ _ _ ?st2] =>
        destruct (on_tool_calls_recurses script' role_name model temperature top_p functions
                    acc dict_args f result provider.1 st2 Hjson Hfun Hres Hc)
          as (rest & more & Hlog2 & Hmore);
        destruct (on_tool_calls script' role_name model temperature top_p
                    (resolved_functions role_name functions) acc st2) as [[[]|e] st3]
    end; simpl in Hlog2, Hmore.
    1,2: try destruct e.
    all: simpl; rewrite ?Hlog2, ?Hmore, Hlog, Hm, Hkw.
    all: exists provider.1,
           (build_request_kwargs provider.2 (resolved_functions role_name functions)), gw.
    all: unfold provider_call; rewrite Hm.
    all: try (exists rest, more; split; [exact Hgw|]; split; [by reassoc|done]).
    exists (rest ++ [Close (pre ++ Item chunk :: post)]), more.
    split; [exact Hgw|]. split; [by reassoc|done].
Qed.

End Handler.

(** ** The two branches of the accumulation *)

(** The two branches of the loop, the one that reads LiteLLM dicts and
    the one that reads OpenAI objects, accumulate the same call from deltas
    that both read without an exception. *)
Theorem branches_accumulate_alike tcs acc :
  forallb read_by_both tcs = true ->
  accumulate_all true tcs acc = accumulate_all false tcs acc.
Proof.
  revert acc. induction tcs as [|tc tcs IH]; intros acc Hboth; [done|].
  simpl in Hboth. apply andb_prop in Hboth as [Htc Hboth].
  unfold read_by_both in Htc. apply andb_prop in Htc as [Htrue Hfalse].
  change (accumulate_all true (tc :: tcs) acc)
    with (match accumulate true acc tc with
          | Ok acc' => accumulate_all true tcs acc'
          | Raise e => Raise e
          end).
  change (accumulate_all false (tc :: tcs) acc)
    with (match accumulate false acc tc with
          | Ok acc' => accumulate_all false tcs acc'
          | Raise e => Raise e
          end).
  rewrite (accumulate_well_formed true acc tc Htrue),
    (accumulate_well_formed false acc tc Hfalse).
  by apply IH.
Qed.

(** ** A concrete world

    A provider script, a registry with one function and a configuration,
    on which the statements above are run.  Floats stand as integers, JSON
    values and schemas as strings. *)

Module Scenario.

Definition demo_int (s : string) : option Z :=
  if decide (s = "60") then Some 60%Z else None.

Definition demo_str (v : string) : string := v.

(** The arguments of the call, as the provider sends them in two pieces. *)
Definition args_head : string := "{" +:+ dquote +:+ "city" +:+ dquote +:+ ": ".
Definition args_tail : string := dquote +:+ "Paris" +:+ dquote +:+ "}".
Definition weather_args : string := args_head +:+ args_tail.

Definition demo_json_loads (s : string) : option (@PyJSON string) :=
  if decide (s = weather_args) then Some (JDict [("city", "Paris")])
  else if decide (s = "[1]") then Some (JOther "[1]")
  else None.

Definition demo_get_function (name : string)
  : option (list (string * string) -> Result string) :=
  if decide (name = "get_weather") then Some (fun _ => Ok "sunny") else None.

Definition demo_cfg (key : string) : string :=
  if decide (key = "REQUEST_TIMEOUT") then "60"
  else if decide (key = "API_BASE_URL") then "default"
  else if decide (key = "OPENAI_API_KEY") then "sk-demo"
  else "false".

(** A configuration that can no longer be resolved. *)
Definition broken_cfg (key : string) : string := "oops".

Definition SHELL : string := "Shell Command Generator".
Definition CODE : string := "Code Generator".
Definition DESCRIBE_SHELL : string := "Shell Command Descriptor".

(** A digest that tells models apart only; enough to run the cache. *)
Definition model_digest (f : @FingerprintFields Z string) : string := fp_model f.

Definition user_message (s : string) : Message :=
  {| role := "user"; msg_content := Some s; msg_tool_calls := None;
     msg_tool_call_id := None |}.

Definition st0 : @State Z string string :=
  {| messages := [user_message "weather in Paris?"];
     yielded := []; log := [];
     completion := None; completion_kwargs := ∅;
     cfg := demo_cfg; store := ∅ |}.

Definition text (s : string) : StreamItem :=
  Item {| choices := [ {| delta := {| content := Some s; tool_calls := [] |};
                         finish_reason := None |} ] |}.

Definition call_delta (id name arguments : field string) : ToolCallDelta :=
  {| tc_id := id;
     tc_function := Present {| fn_name := name; fn_arguments := arguments |} |}.

Definition call (id name arguments : field string) : StreamItem :=
  Item {| choices := [ {| delta := {| content := None;
                                     tool_calls := [call_delta id name arguments] |};
                         finish_reason := None |} ] |}.

Definition finish (reason : string) : Chunk :=
  {| choices := [ {| delta := {| content := None; tool_calls := [] |};
                    finish_reason := Some reason |} ] |}.

Definition seg1_pre : Response :=
  [text "Let me "; text "check.";
   call (Present "call_1") (Present "get_weather") (Present args_head);
   call PyNone PyNone (Present args_tail)].

Definition seg2 : Response :=
  [text "It is "; text "sunny."; Item (finish "stop")].

Definition bad_pre : Response :=
  [text "Let me "; call (Present "call_1") (Present "get_weather") (Present "{oops")].

Definition weather_call : Acc :=
  {| acc_id := "call_1"; acc_name := "get_weather"; acc_arguments := weather_args |}.

Definition bad_call : Acc :=
  {| acc_id := "call_1"; acc_name := "get_weather"; acc_arguments := "{oops" |}.

(** The decorated method in this world. *)
Definition demo_get_completion (caching : bool) (script : list Response)
    (role_name : string) (functions : option (list string)) : M unit :=
  get_completion demo_int demo_str demo_json_loads demo_get_function false
    SHELL CODE DESCRIBE_SHELL model_digest caching script role_name "gpt-4o" 0%Z 1%Z
    functions.

Definition demo_handle_function_call (tool_call_id name arguments : string)
  : @M Z string string unit :=
  handle_function_call demo_str demo_json_loads demo_get_function
    tool_call_id name arguments.


(** The state of the scenario with a timeout that is no integer. *)
Definition broken_st0 : @State Z string string :=
  {| messages := messages st0; yielded := []; log := [];
     completion := None; completion_kwargs := ∅;
     cfg := broken_cfg; store := ∅ |}.


Definition weather_deltas : list ToolCallDelta :=
  [call_delta (Present "call_1") (Present "get_weather") (Present args_head);
   call_delta PyNone PyNone (Present args_tail)].

(** Two calls in one response, as a provider that ignores
    [parallel_tool_calls=False] would send them. *)
Definition two_calls : list ToolCallDelta :=
  [call_delta (Present "call_a") (Present "f") (Present "{");
   call_delta (Present "call_b") (Present "g") (Present "}")].

(** The response that brings them, in two chunks and a last one that
    finishes with [tool_calls]. *)
Definition two_calls_response : Response :=
  [call (Present "call_a") (Present "f") (Present "{");
   call (Present "call_b") (Present "g") (Present "}");
   Item (finish "tool_calls")].

(** *** Witnesses and counterexamples *)

Lemma parse_failure_witness :
  demo_json_loads "{oops" = None
  /\ (let r := demo_handle_function_call "call_1" "get_weather" "{oops" st0 in
      r.1 = Raise (JSONDecodeError "{oops")
      /\ messages r.2 = messages st0 ++ [assistant_message "call_1" "get_weather" "{oops"]
      /\ role (assistant_message "call_1" "get_weather" "{oops") = "assistant"
      /\ length (messages r.2) = S (length (messages st0))).
Proof.
  split; [reflexivity|].
  apply (parse_failure_keeps_assistant_message demo_str demo_json_loads demo_get_function).
  reflexivity.
Defined.

Lemma malformed_arguments_witness :
  cache_hit model_digest true "gpt-4o" 0%Z 1%Z (Some ["schema"]) st0 = false
  /\ gateway_ready demo_int st0 = true
  /\ forallb plain_item bad_pre = true
  /\ tool_call_chunk (finish "tool_calls") = true
  /\ accumulate_all false (deltas (bad_pre ++ [Item (finish "tool_calls")])) acc0 = Ok bad_call
  /\ demo_json_loads (acc_arguments bad_call) = None
  /\ (let r := demo_get_completion true [bad_pre ++ Item (finish "tool_calls") :: []]
                 "default" (Some ["schema"]) st0 in
      r.1 = Raise (JSONDecodeError "{oops")
      /\ exists evs, log r.2 = log st0 ++ evs
                     /\ count is_FunctionCall evs = 0
                     /\ count is_ProviderCall evs = 1).
Proof.
  do 6 (split; [vm_compute; reflexivity|]).
  apply (malformed_arguments_are_fatal demo_int demo_str demo_json_loads demo_get_function
           false SHELL CODE DESCRIBE_SHELL model_digest true bad_pre (finish "tool_calls") []
           [] "default" "gpt-4o" 0%Z 1%Z (Some ["schema"]) st0 bad_call);
    vm_compute; reflexivity.
Defined.

Lemma interrupt_witness :
  cache_hit model_digest true "gpt-4o" 0%Z 1%Z None st0 = false
  /\ gateway_ready demo_int st0 = true
  /\ forallb plain_item [text "Let me "] = true
  /\ accumulate_all false (deltas [text "Let me "]) acc0 = Ok acc0
  /\ (let response := [text "Let me "] ++ Throw KeyboardInterrupt :: [text "check."] in
      let r := demo_get_completion true [response] "default" None st0 in
      r.1 = Ok tt
      /\ yielded r.2 = yielded st0 ++ fragments [text "Let me "]
      /\ messages r.2 = messages st0
      /\ exists evs, log r.2 = log st0 ++ evs ++ [Close response]).
Proof.
  do 4 (split; [vm_compute; reflexivity|]).
  apply (interrupt_closes_stream demo_int demo_str demo_json_loads demo_get_function
           false SHELL CODE DESCRIBE_SHELL model_digest true [text "Let me "] [text "check."]
           [] "default" "gpt-4o" 0%Z 1%Z None st0 acc0);
    vm_compute; reflexivity.
Defined.


Lemma reserved_roles_witness :
  (SHELL = SHELL \/ SHELL = CODE \/ SHELL = DESCRIBE_SHELL)
  /\ tool_free (completion_kwargs st0)
  /\ ((exists evs,
          log (demo_get_completion true [seg1_pre ++ [Item (finish "tool_calls")]; seg2]
                 SHELL (Some ["schema"]) st0).2
          = log st0 ++ evs
          /\ Forall (fun ev => forall c m t p msgs kw,
                       ev = ProviderCall c m t p msgs kw ->
                       kw !! "tools" = None /\ kw !! "tool_choice" = None
                       /\ kw !! "parallel_tool_calls" = None) evs)
      /\ forall use_functions get_openai_schemas,
           function_schemas (Schema := string) SHELL CODE DESCRIBE_SHELL use_functions SHELL
             get_openai_schemas = None).
Proof.
  split; [by left|]. split; [apply tool_free_empty|].
  apply (reserved_roles_never_send_tools demo_int demo_str demo_json_loads demo_get_function
           false SHELL CODE DESCRIBE_SHELL model_digest true
           [seg1_pre ++ [Item (finish "tool_calls")]; seg2] SHELL "gpt-4o" 0%Z 1%Z
           (Some ["schema"]) st0).
  - by left.
  - apply tool_free_empty.
Defined.

Lemma tool_fields_witness :
  tool_free (completion_kwargs st0)
  /\ cache_hit model_digest true "gpt-4o" 0%Z 1%Z (Some ["schema"]) st0 = false
  /\ gateway_ready demo_int st0 = true
  /\ (let r := demo_get_completion true [seg1_pre ++ [Item (finish "tool_calls")]; seg2]
                 "default" (Some ["schema"]) st0 in
      let carries (kw : gmap string (@KwVal string)) :=
        kw !! "tool_choice" = Some (KStr "auto")
        /\ kw !! "tools" = Some (KTools ["schema"])
        /\ kw !! "parallel_tool_calls" = Some (KBool false) in
      (exists evs,
          log r.2 = log st0 ++ evs
          /\ Forall (fun ev => forall c m t p msgs kw,
                       ev = ProviderCall c m t p msgs kw -> carries kw) evs)
      /\ (exists c kw gw rest,
             forallb gateway_event gw = true
             /\ log r.2 = log st0 ++ GetCompletion true :: gw
                            ++ ProviderCall c "gpt-4o" 0%Z 1%Z (messages st0) kw :: rest
             /\ carries kw)
      /\ (function_schemas SHELL CODE DESCRIBE_SHELL true "default" ["schema"]
          = Some ["schema"]
          <-> true = true /\ is_reserved_role SHELL CODE DESCRIBE_SHELL "default" = false
              /\ ["schema"] = ["schema"] /\ ["schema"] <> [])).
Proof.
  cbv zeta.
  destruct (tool_fields_iff_schemas demo_int demo_str demo_json_loads demo_get_function
              false SHELL CODE DESCRIBE_SHELL model_digest true
              [seg1_pre ++ [Item (finish "tool_calls")]; seg2] "default" "gpt-4o" 0%Z 1%Z
              (Some ["schema"]) st0 tool_free_empty) as (Hall & Hfirst & Hcaller).
  split; [apply tool_free_empty|]. do 2 (split; [reflexivity|]).
  split; [exact Hall|]. split; [exact (Hfirst eq_refl eq_refl)|].
  exact (Hcaller true ["schema"] ["schema"]).
Defined.


Lemma accumulate_witness :
  forallb plain_item seg1_pre = true
  /\ tool_call_chunk (finish "tool_calls") = true
  /\ forallb (well_formed false) (deltas (seg1_pre ++ [Item (finish "tool_calls")])) = true
  /\ cache_hit model_digest true "gpt-4o" 0%Z 1%Z (Some ["schema"]) st0 = false
  /\ gateway_ready demo_int st0 = true
  /\ deltas (seg1_pre ++ [Item (finish "tool_calls")]) = weather_deltas
  /\ (forall k (st' : @State Z string string),
        for_chunks false k (seg1_pre ++ [Item (finish "tool_calls")]) acc0 st'
        = k weather_call (add_yielded ["Let me "; "check."; ""; ""] st'))
  /\ exists more,
       messages (demo_get_completion true [seg1_pre ++ [Item (finish "tool_calls")]; seg2]
                   "default" (Some ["schema"]) st0).2
       = messages st0 ++ assistant_message "call_1" "get_weather" weather_args :: more.
Proof.
  cbv zeta.
  destruct (deltas_accumulate_across_chunks demo_int demo_str demo_json_loads
              demo_get_function false SHELL CODE DESCRIBE_SHELL model_digest true seg1_pre
              (finish "tool_calls") [] [seg2] "default" "gpt-4o" 0%Z 1%Z (Some ["schema"]) st0
              eq_refl eq_refl eq_refl) as [Hloop Hrecorded].
  do 6 (split; [reflexivity|]). split.
  - intros k st'. exact (Hloop k st').
  - exact (Hrecorded eq_refl eq_refl).
Defined.

(** C4, counterexample.  A response brings the deltas of two calls
    before it finishes with [tool_calls].  Kept per id, the call [call_b]
    would have the arguments of its own delta; the loop hands on, and the
    handler records, [call_b] with the fragments of both calls. *)
Lemma accumulate_all_merges_ids :
  deltas two_calls_response = two_calls
  /\ accumulate_per_id two_calls !! "call_a" = Some ("f", "{")
  /\ accumulate_per_id two_calls !! "call_b" = Some ("g", "}")
  /\ (forall use_litellm k,
        for_chunks use_litellm k two_calls_response acc0 st0
        = k {| acc_id := "call_b"; acc_name := "g"; acc_arguments := "{}" |}
            (add_yielded [""; ""] st0))
  /\ messages (demo_get_completion false [two_calls_response] "default" (Some ["schema"])
                 st0).2
     = messages st0 ++ [assistant_message "call_b" "g" "{}"].
Proof.
  do 3 (split; [vm_compute; reflexivity|]). split; [|vm_compute; reflexivity].
  intros [] k; reflexivity.
Qed.


(** The run of the scenario with caching on: the outer invocation, then
    one nested invocation for the one tool message. *)
Example nested_invocation_of_scenario :
  let seg1 := seg1_pre ++ [Item (finish "tool_calls")] in
  let r := demo_get_completion true [seg1; seg2] "default" (Some ["schema"]) st0 in
  List.filter is_GetCompletion (log r.2) = [GetCompletion true; GetCompletion false]
  /\ tool_messages r.2 = 1.
Proof. split; vm_compute; reflexivity. Qed.

Lemma recursive_call_witness :
  cache_hit model_digest true "gpt-4o" 0%Z 1%Z (Some ["schema"]) st0 = false
  /\ gateway_ready demo_int st0 = true
  /\ forallb plain_item seg1_pre = true
  /\ tool_call_chunk (finish "tool_calls") = true
  /\ accumulate_all false (deltas (seg1_pre ++ [Item (finish "tool_calls")])) acc0
     = Ok weather_call
  /\ demo_json_loads (acc_arguments weather_call) = Some (JDict [("city", "Paris")])
  /\ demo_get_function (acc_name weather_call) = Some (fun _ => Ok "sunny")
  /\ (let r := demo_get_completion true [seg1_pre ++ [Item (finish "tool_calls")]; seg2]
                 "default" (Some ["schema"]) st0 in
      let extended :=
        messages st0 ++ [assistant_message "call_1" "get_weather" weather_args;
                         tool_message "sunny" "call_1"] in
      exists c kw gw rest more,
        forallb gateway_event gw = true
        /\ log r.2
           = log st0 ++ GetCompletion true :: gw
               ++ [ProviderCall c "gpt-4o" 0%Z 1%Z (messages st0) kw;
                   FunctionCall "get_weather" [("city", "Paris")];
                   CfgGet "SHOW_FUNCTIONS_OUTPUT";
                   GetCompletion false;
                   ProviderCall c "gpt-4o" 0%Z 1%Z extended kw] ++ rest
        /\ messages r.2 = extended ++ more).
Proof.
  do 7 (split; [vm_compute; reflexivity|]).
  apply (proj2 (recursive_call_disables_caching demo_int demo_str demo_json_loads
                  demo_get_function false SHELL CODE DESCRIBE_SHELL model_digest true
                  [seg1_pre ++ [Item (finish "tool_calls")]; seg2] "default" "gpt-4o" 0%Z 1%Z
                  (Some ["schema"]) st0)
           seg1_pre (finish "tool_calls") [] [seg2] weather_call [("city", "Paris")]
           (fun _ => Ok "sunny") "sunny");
    vm_compute; reflexivity.
Defined.

(** *** Further witnesses *)

Lemma api_key_witness :
  completion_kwargs st0 !! "api_key" = None
  /\ (let r := get_completion demo_int demo_str demo_json_loads demo_get_function true
                 SHELL CODE DESCRIBE_SHELL model_digest true
                 [seg1_pre ++ [Item (finish "tool_calls")]; seg2] "default" "gpt-4o" 0%Z 1%Z
                 (Some ["schema"]) st0 in
      exists evs,
        log r.2 = log st0 ++ evs
        /\ Forall (fun ev => forall c m t p msgs kw,
                     ev = ProviderCall c m t p msgs kw -> kw !! "api_key" = None) evs).
Proof.
  split; [reflexivity|].
  apply (requests_never_carry_api_key demo_int demo_str demo_json_loads demo_get_function true
           SHELL CODE DESCRIBE_SHELL model_digest true
           [seg1_pre ++ [Item (finish "tool_calls")]; seg2] "default" "gpt-4o" 0%Z 1%Z
           (Some ["schema"]) st0).
  reflexivity.
Defined.

Lemma transport_error_witness :
  cache_hit model_digest true "gpt-4o" 0%Z 1%Z None st0 = false
  /\ gateway_ready demo_int st0 = true
  /\ forallb plain_item [text "Let me "] = true
  /\ accumulate_all false (deltas [text "Let me "]) acc0 = Ok acc0
  /\ ProviderError <> KeyboardInterrupt
  /\ (let response := [text "Let me "] ++ Throw ProviderError :: [text "check."] in
      let r := demo_get_completion true [response] "default" None st0 in
      r.1 = Raise ProviderError
      /\ yielded r.2 = yielded st0 ++ fragments [text "Let me "]
      /\ messages r.2 = messages st0
      /\ exists evs, log r.2 = log st0 ++ evs
                     /\ count is_Close evs = 0
                     /\ count is_ProviderCall evs = 1).
Proof.
  do 4 (split; [vm_compute; reflexivity|]). split; [done|].
  apply (transport_error_propagates demo_int demo_str demo_json_loads demo_get_function
           false SHELL CODE DESCRIBE_SHELL model_digest true [text "Let me "] ProviderError
           [text "check."] [] "default" "gpt-4o" 0%Z 1%Z None st0 acc0);
    try (vm_compute; reflexivity). done.
Defined.

Lemma ignored_chunks_witness :
  tool_call_chunk (finish "tool_calls") = true
  /\ (let r1 := get_completion_body demo_int demo_str demo_json_loads demo_get_function false
                  SHELL CODE DESCRIBE_SHELL model_digest
                  [seg1_pre ++ Item (finish "tool_calls") :: [text "never read"]; seg2]
                  "default" "gpt-4o" 0%Z 1%Z (Some ["schema"]) st0 in
      let r2 := get_completion_body demo_int demo_str demo_json_loads demo_get_function false
                  SHELL CODE DESCRIBE_SHELL model_digest
                  [seg1_pre ++ [Item (finish "tool_calls")]; seg2]
                  "default" "gpt-4o" 0%Z 1%Z (Some ["schema"]) st0 in
      r1.1 = r2.1 /\ yielded r1.2 = yielded r2.2 /\ messages r1.2 = messages r2.2).
Proof.
  split; [reflexivity|].
  apply (chunks_after_tool_calls_are_ignored demo_int demo_str demo_json_loads
           demo_get_function false SHELL CODE DESCRIBE_SHELL model_digest seg1_pre
           (finish "tool_calls") [text "never read"] [seg2] "default" "gpt-4o" 0%Z 1%Z
           (Some ["schema"]) st0).
  reflexivity.
Defined.

Lemma bad_timeout_witness :
  cache_hit model_digest true "gpt-4o" 0%Z 1%Z None broken_st0 = false
  /\ completion broken_st0 = None
  /\ demo_int (cfg broken_st0 "REQUEST_TIMEOUT") = None
  /\ (let r := demo_get_completion true [seg2] "default" None broken_st0 in
      r.1 = Raise ValueError
      /\ completion r.2 = None
      /\ completion_kwargs r.2 = completion_kwargs broken_st0
      /\ yielded r.2 = yielded broken_st0
      /\ messages r.2 = messages broken_st0
      /\ log r.2 = log broken_st0 ++ [GetCompletion true; CfgGet "API_BASE_URL";
                                      CfgGet "REQUEST_TIMEOUT"]).
Proof.
  do 3 (split; [vm_compute; reflexivity|]).
  apply (bad_timeout_stops_before_provider demo_int demo_str demo_json_loads
           demo_get_function false SHELL CODE DESCRIBE_SHELL model_digest true [seg2]
           "default" "gpt-4o" 0%Z 1%Z None broken_st0);
    vm_compute; reflexivity.
Defined.

Lemma branches_witness :
  forallb read_by_both weather_deltas = true
  /\ accumulate_all true weather_deltas acc0 = accumulate_all false weather_deltas acc0.
Proof.
  split; [reflexivity|].
  apply (branches_accumulate_alike weather_deltas acc0). reflexivity.
Defined.

End Scenario.

(** * The helpers of [sgpt/utils.py]

    Python strings are modelled as sequences of characters below 256. *)

Module Utils.

(** ** Python's string methods *)

(** [c.isspace()] *)
Definition isspace (c : ascii) : bool :=
  let n := nat_of_ascii c in
  (((9 <=? n) && (n <=? 13)) || ((28 <=? n) && (n <=? 32)) || (n =? 133) || (n =? 160))%nat.

(** [s.lstrip()] *)
Fixpoint lstrip (s : string) : string :=
  match s with
  | EmptyString => EmptyString
  | String c s' => if isspace c then lstrip s' else s
  end.

(** [s.rstrip()] *)
Fixpoint rstrip (s : string) : string :=
  match s with
  | EmptyString => EmptyString
  | String c s' =>
      match rstrip s' with
      | EmptyString => if isspace c then EmptyString else String c EmptyString
      | r => String c r
      end
  end.

(** [s.strip()] *)
Definition strip (s : string) : string := rstrip (lstrip s).

(** [any(char.isspace() for char in s)] *)
Fixpoint any_isspace (s : string) : bool :=
  match s with
  | EmptyString => false
  | String c s' => isspace c || any_isspace s'
  end.

(** [s.startswith(p)] *)
Definition startswith (p s : string) : bool := String.prefix p s.

(** [x or d] on an optional string. *)
Definition or_default (x : option string) (d : string) : string :=
  match x with
  | Some s => if decide (s = EmptyString) then d else s
  | None => d
  end.

(** ** replicate_to_host (utils.py, lines 56-146) *)

Definition REMOTE_BOOTSTRAP_COMMAND : string :=
  "set -eu; "
  +:+ "mkdir -p " +:+ dquote +:+ "$HOME/.config" +:+ dquote +:+ " " +:+ dquote +:+ "$HOME/.local/bin" +:+ dquote +:+ "; "
  +:+ "if ! command -v uv >/dev/null 2>&1 && [ ! -x " +:+ dquote +:+ "$HOME/.local/bin/uv" +:+ dquote +:+ " ]; then "
  +:+ "if command -v curl >/dev/null 2>&1; then "
  +:+ "curl -LsSf https://astral.sh/uv/install.sh | sh; "
  +:+ "elif command -v wget >/dev/null 2>&1; then "
  +:+ "wget -qO- https://astral.sh/uv/install.sh | sh; "
  +:+ "else echo 'missing curl or wget for uv install' >&2; exit 1; "
  +:+ "fi; "
  +:+ "fi; "
  +:+ "UV_BIN=" +:+ dquote +:+ "$(command -v uv || true)" +:+ dquote +:+ "; "
  +:+ "if [ -z " +:+ dquote +:+ "$UV_BIN" +:+ dquote +:+ " ] && [ -x " +:+ dquote +:+ "$HOME/.local/bin/uv" +:+ dquote +:+ " ]; then "
  +:+ "UV_BIN=" +:+ dquote +:+ "$HOME/.local/bin/uv" +:+ dquote +:+ "; "
  +:+ "fi; "
  +:+ "if [ -z " +:+ dquote +:+ "$UV_BIN" +:+ dquote +:+ " ]; then "
  +:+ "echo 'uv installation failed' >&2; exit 1; "
  +:+ "fi; "
  +:+ dquote +:+ "$UV_BIN" +:+ dquote +:+ " tool install --force shell-gpt".

Definition REMOTE_VERIFY_COMMAND : string :=
  "set -eu; "
  +:+ "if [ -d " +:+ dquote +:+ "$HOME/.config/shell_gpt" +:+ dquote +:+ " ]; then "
  +:+ "chmod -R go-rwx " +:+ dquote +:+ "$HOME/.config/shell_gpt" +:+ dquote +:+ " 2>/dev/null || true; "
  +:+ "fi; "
  +:+ "if [ -x " +:+ dquote +:+ "$HOME/.local/bin/sgpt" +:+ dquote +:+ " ]; then "
  +:+ dquote +:+ "$HOME/.local/bin/sgpt" +:+ dquote +:+ " --version; "
  +:+ "elif command -v sgpt >/dev/null 2>&1; then "
  +:+ "sgpt --version; "
  +:+ "else "
  +:+ "echo 'shell-gpt installed but sgpt is not in PATH, use $HOME/.local/bin/sgpt' >&2; "
  +:+ "exit 1; "
  +:+ "fi".

(** What [subprocess.run(argv, check=True)] does: it returns, or raises
    one of the two exceptions the function catches, or raises another one
    ([PermissionError], [KeyboardInterrupt], ...), here by its name. *)
Inductive RunOutcome :=
| Completed
| FileNotFoundError (filename : option string)
| CalledProcessError (cmd : string + list string)
| OtherException (exception : string).

Inductive Effect :=
| Echo (message : string)          (* typer.echo *)
| Run (argv : list string).        (* subprocess.run *)

(** How the function ends: it returns, raises [UsageError], or lets an
    exception of [subprocess.run] through. *)
Inductive Outcome :=
| Returned
| UsageError (message : string)
| Propagated (exception : string).

(** The machine the function runs on; [config_folder] is
    [str(SHELL_GPT_CONFIG_FOLDER)] of [sgpt/config.py]. *)
Record Machine := {
  platform_system : string;
  config_folder : string;
  config_folder_exists : bool;
  subprocess_run : list string -> RunOutcome;
}.

(** The [try] with its two [except] clauses: how the function ends when a
    command has not completed.  An exception that neither clause names
    leaves the function as it is. *)
Definition failure (o : RunOutcome) : option Outcome :=
  match o with
  | Completed => None
  | FileNotFoundError filename =>
      Some (UsageError ("Required command not found: " +:+ or_default filename "unknown"))
  | CalledProcessError (inl command) =>
      Some (UsageError ("Remote replication failed while running: " +:+ command))
  | CalledProcessError (inr cmd) =>
      Some (UsageError ("Remote replication failed while running: "
                        +:+ String.concat " " cmd))
  | OtherException exception => Some (Propagated exception)
  end.

(** One [subprocess.run] inside the [try], followed by [rest]. *)
Definition checked_run (m : Machine) (argv : list string)
    (rest : list Effect * Outcome) : list Effect * Outcome :=
  match failure (subprocess_run m argv) with
  | Some outcome => ([Run argv], outcome)
  | None => (Run argv :: rest.1, rest.2)
  end.

Definition bootstrap_argv (target : string) : list string :=
  ["ssh"; target; "sh"; "-lc"; REMOTE_BOOTSTRAP_COMMAND].

Definition copy_argv (m : Machine) (target : string) : list string :=
  ["scp"; "-r"; config_folder m; target +:+ ":~/.config/"].

Definition verify_argv (target : string) : list string :=
  ["ssh"; target; "sh"; "-lc"; REMOTE_VERIFY_COMMAND].

Definition echo_then (message : string) (rest : list Effect * Outcome)
  : list Effect * Outcome :=
  (Echo message :: rest.1, rest.2).

Definition replicate_to_host (m : Machine) (target : string) : list Effect * Outcome :=
  if decide (platform_system m = "Windows")
  then ([], UsageError "`--replicate` is only available on POSIX systems.")
  else
    let normalized_target := strip target in
    if decide (normalized_target = EmptyString)
    then ([], UsageError "`--replicate` requires a target in the form user@host.")
    else if startswith "-" normalized_target
    then ([], UsageError "`--replicate` target cannot start with '-'.")
    else if any_isspace normalized_target
    then ([], UsageError "`--replicate` target cannot contain spaces.")
    else if negb (config_folder_exists m)
    then ([], UsageError ("Local config folder does not exist: " +:+ config_folder m))
    else
      echo_then ("Bootstrapping ShellGPT on " +:+ normalized_target +:+ "...")
        (checked_run m (bootstrap_argv normalized_target)
           (echo_then ("Copying local config from " +:+ config_folder m
                       +:+ " to remote host...")
              (checked_run m (copy_argv m normalized_target)
                 (echo_then "Verifying remote installation..."
                    (checked_run m (verify_argv normalized_target)
                       ([Echo "Replication complete."], Returned)))))).

(** The commands among the effects, in order. *)
Fixpoint runs (effects : list Effect) : list (list string) :=
  match effects with
  | [] => []
  | Run argv :: effects' => argv :: runs effects'
  | Echo _ :: effects' => runs effects'
  end.

(** The five checks of lines 98-112. *)
Definition accepted (m : Machine) (target : string) : bool :=
  negb (bool_decide (platform_system m = "Windows"))
  && negb (bool_decide (strip target = EmptyString))
  && negb (startswith "-" (strip target))
  && negb (any_isspace (strip target))
  && config_folder_exists m.

(** ** run_command (utils.py, lines 37-54) *)

(** [s.split(sep)] for a separator of one character. *)
Fixpoint split (sep : ascii) (s : string) : list string :=
  match s with
  | EmptyString => [EmptyString]
  | String c s' =>
      if decide (c = sep) then EmptyString :: split sep s'
      else match split sep s' with
           | [] => [String c EmptyString]
           | part :: parts => String c part :: parts
           end
  end.

(** The characters [shlex.quote] leaves alone: [[\w@%+=:,./-]] with
    [re.ASCII]. *)
Definition is_safe (c : ascii) : bool :=
  let n := nat_of_ascii c in
  (((48 <=? n) && (n <=? 57)) || ((65 <=? n) && (n <=? 90)) || ((97 <=? n) && (n <=? 122))
   || (n =? 95) || (n =? 64) || (n =? 37) || (n =? 43) || (n =? 61) || (n =? 58)
   || (n =? 44) || (n =? 46) || (n =? 47) || (n =? 45))%nat.

Fixpoint all_safe (s : string) : bool :=
  match s with
  | EmptyString => true
  | String c s' => is_safe c && all_safe s'
  end.

Definition squote : string := String "039"%char EmptyString.

(** [s.replace("'", "'\"'\"'")] *)
Fixpoint escape_squotes (s : string) : string :=
  match s with
  | EmptyString => EmptyString
  | String c s' =>
      if decide (c = "039"%char)
      then squote +:+ dquote +:+ squote +:+ dquote +:+ squote +:+ escape_squotes s'
      else String c (escape_squotes s')
  end.

(** Python's [shlex.quote]. *)
Definition shlex_quote (s : string) : string :=
  if decide (s = EmptyString) then squote +:+ squote
  else if all_safe s then s
  else squote +:+ escape_squotes s +:+ squote.

(** The process environment. *)
Record Environment := {
  system : string;                    (* platform.system() *)
  getenv : string -> option string;   (* os.environ *)
  pathsep : ascii;                    (* os.pathsep *)
}.

(** The command line [run_command] hands to [os.system]. *)
Definition full_command (env : Environment) (command : string) : string :=
  if decide (system env = "Windows")
  then
    let is_powershell :=
      (3 <=? length (split (pathsep env)
                      (default EmptyString (getenv env "PSModulePath"))))%nat in
    if is_powershell
    then "powershell.exe -Command " +:+ dquote +:+ command +:+ dquote
    else "cmd.exe /c " +:+ dquote +:+ command +:+ dquote
  else
    let shell := default "/bin/sh" (getenv env "SHELL") in
    shell +:+ " -c " +:+ shlex_quote command.

(** How a POSIX shell reads a word: outside quotes only the characters
    [shlex.quote] calls safe are taken as they are; between single quotes
    everything is; between double quotes everything but [$], the backquote
    and the backslash is.  [None] when the text is not one such word. *)
Inductive Quoting := Bare | Single | Double.

Fixpoint sh_word (q : Quoting) (s : string) : option string :=
  match s with
  | EmptyString => match q with Bare => Some EmptyString | _ => None end
  | String c s' =>
      match q with
      | Bare =>
          if decide (c = "039"%char) then sh_word Single s'
          else if decide (c = "034"%char) then sh_word Double s'
          else if is_safe c then String c <$> sh_word Bare s'
          else None
      | Single =>
          if decide (c = "039"%char) then sh_word Bare s'
          else String c <$> sh_word Single s'
      | Double =>
          if decide (c = "034"%char) then sh_word Bare s'
          else if bool_decide (c = "$"%char) || bool_decide (c = "`"%char)
                  || bool_decide (c = "\"%char)
               then None
               else String c <$> sh_word Double s'
      end
  end.

(** ** Facts about replicate_to_host *)

Lemma failure_None o : failure o = None <-> o = Completed.
Proof. destruct o as [| |[]|]; simpl; split; done. Qed.

Lemma accepted_true m target :
  accepted m target = true <->
  platform_system m <> "Windows"
  /\ strip target <> EmptyString
  /\ startswith "-" (strip target) = false
  /\ any_isspace (strip target) = false
  /\ config_folder_exists m = true.
Proof.
  unfold accepted. rewrite !andb_true_iff, !negb_true_iff, !bool_decide_eq_false.
  tauto.
Qed.

(** The function on an input that passes the checks. *)
Lemma replicate_accepted m target :
  accepted m target = true ->
  replicate_to_host m target
  = echo_then ("Bootstrapping ShellGPT on " +:+ strip target +:+ "...")
      (checked_run m (bootstrap_argv (strip target))
         (echo_then ("Copying local config from " +:+ config_folder m
                     +:+ " to remote host...")
            (checked_run m (copy_argv m (strip target))
               (echo_then "Verifying remote installation..."
                  (checked_run m (verify_argv (strip target))
                     ([Echo "Replication complete."], Returned)))))).
Proof.
  intros (Hp & Ht & Hd & Hs & Hc)%accepted_true. unfold replicate_to_host.
  rewrite (decide_False (P := platform_system m = "Windows")) by done.
  cbv zeta. rewrite (decide_False (P := strip target = EmptyString)) by done.
  by rewrite Hd, Hs, Hc.
Qed.

(** An input that fails one of the checks has no effect. *)
Lemma replicate_refused m target :
  accepted m target = false -> (replicate_to_host m target).1 = [].
Proof.
  unfold accepted, replicate_to_host. intros H.
  destruct (decide (platform_system m = "Windows")); [done|].
  cbv zeta. destruct (decide (strip target = EmptyString)); [done|].
  destruct (startswith "-" (strip target)); [done|].
  destruct (any_isspace (strip target)); [done|].
  destruct (config_folder_exists m); [|done].
  rewrite !bool_decide_eq_false_2 in H by done. done.
Qed.

(** An input that fails one of the checks is refused before anything is
    printed or run, with the message of the first check that fails, in the
    order platform, empty target, leading dash, whitespace, config
    folder. *)
Theorem replicate_refuses_before_running m target :
  accepted m target = false ->
  replicate_to_host m target
  = ([], UsageError
           (if decide (platform_system m = "Windows")
            then "`--replicate` is only available on POSIX systems."
            else if decide (strip target = EmptyString)
            then "`--replicate` requires a target in the form user@host."
            else if startswith "-" (strip target)
            then "`--replicate` target cannot start with '-'."
            else if any_isspace (strip target)
            then "`--replicate` target cannot contain spaces."
            else "Local config folder does not exist: " +:+ config_folder m)).
Proof.
  unfold accepted, replicate_to_host. intros H.
  destruct (decide (platform_system m = "Windows")); [done|].
  cbv zeta. destruct (decide (strip target = EmptyString)); [done|].
  destruct (startswith "-" (strip target)); [done|].
  destruct (any_isspace (strip target)); [done|].
  destruct (config_folder_exists m); [|done].
  rewrite !bool_decide_eq_false_2 in H by done. done.
Qed.

(** Every command the function runs is one of the three remote steps, on
    a host name that is the stripped target, is not empty, holds no
    whitespace and does not start with a dash (so that [ssh] and [scp]
    cannot read it as an option), on a POSIX machine whose local
    configuration folder exists. *)
Theorem replicate_runs_only_on_checked_target m target argv :
  argv ∈ runs (replicate_to_host m target).1 ->
  platform_system m <> "Windows"
  /\ config_folder_exists m = true
  /\ strip target <> EmptyString
  /\ startswith "-" (strip target) = false
  /\ any_isspace (strip target) = false
  /\ (argv = ["ssh"; strip target; "sh"; "-lc"; REMOTE_BOOTSTRAP_COMMAND]
      \/ argv = ["scp"; "-r"; config_folder m; strip target +:+ ":~/.config/"]
      \/ argv = ["ssh"; strip target; "sh"; "-lc"; REMOTE_VERIFY_COMMAND]).
Proof.
  destruct (accepted m target) eqn:Hacc.
  - pose proof Hacc as (Hp & Ht & Hd & Hs & Hc)%accepted_true.
    rewrite (replicate_accepted m target Hacc).
    unfold echo_then, checked_run, bootstrap_argv, copy_argv, verify_argv. simpl.
    intros Hin. repeat split; try done.
    repeat (destruct (failure _); simpl in Hin);
      repeat (apply elem_of_cons in Hin as [->|Hin]; [by auto|]);
      by apply elem_of_nil in Hin.
  - rewrite (replicate_refused m target Hacc). simpl. by intros ?%elem_of_nil.
Qed.

(** The three steps run in order and stop at the first one that does not
    complete: the commands run are a non-empty prefix of bootstrap, copy,
    verify, and all but the last of them completed.  How the call ends is
    decided by the last one: it returns when that completed; a missing
    command and a failed command become a [UsageError] that names the
    file or the command; any other exception of [subprocess.run] leaves
    the function as it is.  The call returns only after all three steps,
    and then its last output is the closing line. *)
Theorem replicate_stops_at_first_failure m target :
  accepted m target = true ->
  let r := replicate_to_host m target in
  let steps := [bootstrap_argv (strip target); copy_argv m (strip target);
                verify_argv (strip target)] in
  runs r.1 `prefix_of` steps
  /\ (exists done_before last_run,
        runs r.1 = done_before ++ [last_run]
        /\ Forall (fun argv => subprocess_run m argv = Completed) done_before
        /\ r.2 = match subprocess_run m last_run with
                 | Completed => Returned
                 | FileNotFoundError filename =>
                     UsageError ("Required command not found: "
                                 +:+ or_default filename "unknown")
                 | CalledProcessError (inl command) =>
                     UsageError ("Remote replication failed while running: " +:+ command)
                 | CalledProcessError (inr cmd) =>
                     UsageError ("Remote replication failed while running: "
                                 +:+ String.concat " " cmd)
                 | OtherException exception => Propagated exception
                 end)
  /\ (r.2 = Returned ->
      runs r.1 = steps /\ last r.1 = Some (Echo "Replication complete.")).
Proof.
  intros Hacc. cbv zeta. rewrite (replicate_accepted m target Hacc).
  unfold echo_then, checked_run. simpl.
  assert (forall o, failure o = None -> o = Completed) as Hdone
    by (intros o; apply failure_None).
  assert (forall o out, failure o = Some out ->
            out = match o with
                  | Completed => Returned
                  | FileNotFoundError filename =>
                      UsageError ("Required command not found: "
                                  +:+ or_default filename "unknown")
                  | CalledProcessError (inl command) =>
                      UsageError ("Remote replication failed while running: " +:+ command)
                  | CalledProcessError (inr cmd) =>
                      UsageError ("Remote replication failed while running: "
                                  +:+ String.concat " " cmd)
                  | OtherException exception => Propagated exception
                  end /\ out <> Returned) as Hfail.
  { intros [| |[]|] out; simpl; intros [= <-]; done. }
  destruct (failure (subprocess_run m (bootstrap_argv (strip target)))) eqn:H1; simpl.
  { destruct (Hfail _ _ H1) as [Ho Hne].
    split; [by eexists [_; _]|]. split; [|done].
    by exists [], (bootstrap_argv (strip target)). }
  destruct (failure (subprocess_run m (copy_argv m (strip target)))) eqn:H2; simpl.
  { destruct (Hfail _ _ H2) as [Ho Hne].
    split; [by eexists [_]|]. split; [|done].
    exists [bootstrap_argv (strip target)], (copy_argv m (strip target)).
    repeat split; [|done]. constructor; [by apply Hdone|done]. }
  destruct (failure (subprocess_run m (verify_argv (strip target)))) eqn:H3; simpl.
  { destruct (Hfail _ _ H3) as [Ho Hne].
    split; [by exists []|]. split; [|done].
    exists [bootstrap_argv (strip target); copy_argv m (strip target)],
      (verify_argv (strip target)).
    repeat split; [|done]. repeat constructor; by apply Hdone. }
  split; [by exists []|]. split; [|done].
  exists [bootstrap_argv (strip target); copy_argv m (strip target)],
    (verify_argv (strip target)).
  rewrite (Hdone _ H3). repeat split. repeat constructor; by apply Hdone.
Qed.

(** ** Facts about run_command *)

Lemma is_safe_not_quote c :
  is_safe c = true -> c <> "039"%char /\ c <> "034"%char.
Proof. intros H. split; intros ->; by vm_compute in H. Qed.

Lemma sh_word_safe s : all_safe s = true -> sh_word Bare s = Some s.
Proof.
  induction s as [|c s IH]; simpl; [done|].
  intros [Hc Hs]%andb_prop. destruct (is_safe_not_quote c Hc) as [H1 H2].
  rewrite (decide_False (P := c = "039"%char)), (decide_False (P := c = "034"%char)) by done.
  by rewrite Hc, (IH Hs).
Qed.

Lemma sh_word_escaped_quote rest :
  sh_word Single
    (String "039"%char (String "034"%char (String "039"%char (String "034"%char
       (String "039"%char rest)))))
  = String "039"%char <$> sh_word Single rest.
Proof. reflexivity. Qed.

Lemma sh_word_escaped s :
  sh_word Single (escape_squotes s +:+ squote) = Some s.
Proof.
  induction s as [|c s IH]; [done|].
  simpl escape_squotes. destruct (decide (c = "039"%char)) as [->|Hc].
  - rewrite !string_app_assoc.
    change (squote +:+ dquote +:+ squote +:+ dquote +:+ squote +:+ escape_squotes s +:+ squote)
      with (String "039"%char (String "034"%char (String "039"%char (String "034"%char
              (String "039"%char (escape_squotes s +:+ squote)))))).
    by rewrite sh_word_escaped_quote, IH.
  - change (String c (escape_squotes s) +:+ squote)
      with (String c (escape_squotes s +:+ squote)).
    simpl. rewrite (decide_False (P := c = "039"%char)) by done. by rewrite IH.
Qed.

(** What [shlex.quote] returns is one shell word, and a POSIX shell reads
    it back as the text that was quoted. *)
Lemma shlex_quote_round_trip s : sh_word Bare (shlex_quote s) = Some s.
Proof.
  unfold shlex_quote. destruct (decide (s = EmptyString)) as [->|Hs]; [done|].
  destruct (all_safe s) eqn:Hsafe; [by apply sh_word_safe|].
  change (sh_word Bare (squote +:+ escape_squotes s +:+ squote))
    with (sh_word Single (escape_squotes s +:+ squote)).
  apply sh_word_escaped.
Qed.

(** Off Windows, [run_command] hands [os.system] the user's shell (or
    [/bin/sh]) with [-c] and one more word, and that word, read the way a
    POSIX shell reads it, is the command itself: nothing in the command
    is interpreted by the outer shell. *)
Theorem run_command_passes_command_as_one_word env command :
  system env <> "Windows" ->
  exists word,
    full_command env command
    = default "/bin/sh" (getenv env "SHELL") +:+ " -c " +:+ word
    /\ sh_word Bare word = Some command.
Proof.
  intros Hsys. exists (shlex_quote command). unfold full_command.
  rewrite (decide_False (P := system env = "Windows")) by done.
  split; [done|]. apply shlex_quote_round_trip.
Qed.

(** *** Witnesses *)

Definition demo_machine : Machine :=
  {| platform_system := "Linux"; config_folder := "/home/u/.config/shell_gpt";
     config_folder_exists := true; subprocess_run := fun _ => Completed |}.

(** A machine whose [scp] fails. *)
Definition failing_machine : Machine :=
  {| platform_system := "Linux"; config_folder := "/home/u/.config/shell_gpt";
     config_folder_exists := true;
     subprocess_run := fun argv =>
       if decide (head argv = Some "scp")
       then CalledProcessError (inr ["scp"; "failed"]) else Completed |}.

Definition demo_target : string := " user@example.com ".

(** A Windows machine, and a machine without the configuration folder. *)
Definition windows_machine : Machine :=
  {| platform_system := "Windows"; config_folder := "C:/Users/u/shell_gpt";
     config_folder_exists := true; subprocess_run := fun _ => Completed |}.

Definition bare_machine : Machine :=
  {| platform_system := "Linux"; config_folder := "/home/u/.config/shell_gpt";
     config_folder_exists := false; subprocess_run := fun _ => Completed |}.

Lemma replicate_refuses_witness :
  accepted windows_machine "-x" = false
  /\ accepted demo_machine "   " = false
  /\ accepted demo_machine "-oProxyCommand=x" = false
  /\ accepted demo_machine "user @example.com" = false
  /\ accepted bare_machine "user@example.com" = false
  /\ replicate_to_host windows_machine "-x"
     = ([], UsageError "`--replicate` is only available on POSIX systems.")
  /\ replicate_to_host demo_machine "   "
     = ([], UsageError "`--replicate` requires a target in the form user@host.")
  /\ replicate_to_host demo_machine "-oProxyCommand=x"
     = ([], UsageError "`--replicate` target cannot start with '-'.")
  /\ replicate_to_host demo_machine "user @example.com"
     = ([], UsageError "`--replicate` target cannot contain spaces.")
  /\ replicate_to_host bare_machine "user@example.com"
     = ([], UsageError "Local config folder does not exist: /home/u/.config/shell_gpt").
Proof.
  do 5 (split; [reflexivity|]).
  split; [exact (replicate_refuses_before_running windows_machine "-x" eq_refl)|].
  split; [exact (replicate_refuses_before_running demo_machine "   " eq_refl)|].
  split; [exact (replicate_refuses_before_running demo_machine "-oProxyCommand=x" eq_refl)|].
  split; [exact (replicate_refuses_before_running demo_machine "user @example.com" eq_refl)|].
  exact (replicate_refuses_before_running bare_machine "user@example.com" eq_refl).
Defined.

Lemma replicate_runs_witness :
  verify_argv "user@example.com" ∈ runs (replicate_to_host demo_machine demo_target).1
  /\ strip demo_target = "user@example.com"
  /\ platform_system demo_machine <> "Windows"
  /\ any_isspace (strip demo_target) = false.
Proof.
  assert (verify_argv "user@example.com" ∈ runs (replicate_to_host demo_machine demo_target).1)
    as Hin by (vm_compute; do 2 apply list_elem_of_further; apply list_elem_of_here).
  destruct (replicate_runs_only_on_checked_target demo_machine demo_target _ Hin)
    as (Hp & _ & _ & _ & Hs & _).
  split; [exact Hin|]. split; [reflexivity|]. split; [exact Hp|exact Hs].
Defined.

(** A machine on which [ssh] may not be executed. *)
Definition locked_machine : Machine :=
  {| platform_system := "Linux"; config_folder := "/home/u/.config/shell_gpt";
     config_folder_exists := true;
     subprocess_run := fun _ => OtherException "PermissionError" |}.

Lemma replicate_stops_witness :
  accepted failing_machine demo_target = true
  /\ accepted locked_machine demo_target = true
  /\ runs (replicate_to_host failing_machine demo_target).1
     = [bootstrap_argv (strip demo_target); copy_argv failing_machine (strip demo_target)]
  /\ runs (replicate_to_host failing_machine demo_target).1
     `prefix_of` [bootstrap_argv (strip demo_target); copy_argv failing_machine (strip demo_target);
                  verify_argv (strip demo_target)]
  /\ (replicate_to_host failing_machine demo_target).2
     = UsageError "Remote replication failed while running: scp failed"
  /\ runs (replicate_to_host locked_machine demo_target).1
     `prefix_of` [bootstrap_argv (strip demo_target); copy_argv locked_machine (strip demo_target);
                  verify_argv (strip demo_target)]
  /\ (replicate_to_host locked_machine demo_target).2 = Propagated "PermissionError".
Proof.
  do 3 (split; [reflexivity|]).
  destruct (replicate_stops_at_first_failure failing_machine demo_target eq_refl)
    as (Hprefix & _ & _).
  destruct (replicate_stops_at_first_failure locked_machine demo_target eq_refl)
    as (Hprefix' & _ & _).
  split; [exact Hprefix|]. split; [reflexivity|]. split; [exact Hprefix'|reflexivity].
Defined.

Definition demo_env : Environment :=
  {| system := "Linux";
     getenv := fun key => if decide (key = "SHELL") then Some "/bin/zsh" else None;
     pathsep := ":"%char |}.

Lemma run_command_witness :
  system demo_env <> "Windows"
  /\ full_command demo_env "echo 'a b'; ls"
     = "/bin/zsh -c 'echo '" +:+ dquote +:+ "'" +:+ dquote +:+ "'a b'" +:+ dquote +:+ "'"
         +:+ dquote +:+ "'; ls'"
  /\ exists word,
       full_command demo_env "echo 'a b'; ls"
       = default "/bin/sh" (getenv demo_env "SHELL") +:+ " -c " +:+ word
       /\ sh_word Bare word = Some "echo 'a b'; ls".
Proof.
  assert (system demo_env <> "Windows") as Hsys by done.
  split; [exact Hsys|]. split; [reflexivity|].
  exact (run_command_passes_command_as_one_word demo_env "echo 'a b'; ls" Hsys).
Defined.

End Utils.

(** * Two loops of [main] in [sgpt/app.py] *)

Module App.

(** ** Reading the prompt from stdin (app.py, lines 200-214) *)

(** [needle in hay] on strings. *)
Fixpoint contains (needle hay : string) : bool :=
  String.prefix needle hay
  || match hay with
     | EmptyString => false
     | String _ hay' => contains needle hay'
     end.

Definition eof_marker : string := "__sgpt__eof__".

(** [for line in sys.stdin: ...]: the text gathered and the lines left
    unread. *)
Fixpoint read_until_marker (lines : list string) (stdin : string) : string * list string :=
  match lines with
  | [] => (stdin, [])
  | line :: lines' =>
      if contains eof_marker line then (stdin, lines')
      else read_until_marker lines' (stdin +:+ line)
  end.

(** [prompt = f"{stdin}\n\n{prompt}" if prompt else stdin] *)
Definition stdin_prompt (lines : list string) (prompt : string) : string * list string :=
  let r := read_until_marker lines EmptyString in
  (if decide (prompt = EmptyString) then r.1 else r.1 +:+ nl +:+ nl +:+ prompt, r.2).

(** ** The loop of [--shell] (app.py, lines 311-343) *)

(** One round with the user: the option picked at [typer.prompt], and what
    [session.prompt] returns if the option asks for a modification. *)
Record Answer := {
  picked : string;
  modified : string;
}.

Inductive Action :=
| RunCommand (command : string)        (* run_command(full_completion) *)
| DescribeShell (command : string).    (* the DESCRIBE_SHELL handler on full_completion *)

(** [while True: ...]; the flag tells whether the loop ended by [break]
    (it does not when the answers run out). *)
Fixpoint interact (answers : list Answer) (full_completion : string) : list Action * bool :=
  match answers with
  | [] => ([], false)
  | answer :: answers' =>
      let option := picked answer in
      if bool_decide (option = "e") || bool_decide (option = "y")
      then ([RunCommand full_completion], true)
      else if bool_decide (option = "m")
      then interact answers' (modified answer)
      else if bool_decide (option = "d")
      then let r := interact answers' full_completion in
           (DescribeShell full_completion :: r.1, r.2)
      else ([], true)
  end.

(** [if shell and shell_interaction: ...] *)
Definition shell_interaction_loop (shell shell_interaction : bool) (answers : list Answer)
    (full_completion : string) : list Action :=
  if shell && shell_interaction then (interact answers full_completion).1 else [].

(** An answer after which the loop goes round again. *)
Definition goes_on (answer : Answer) : bool :=
  bool_decide (picked answer = "m") || bool_decide (picked answer = "d").

(** The command as the modifications so far have left it. *)
Definition current_command (answers : list Answer) (full_completion : string) : string :=
  foldl (fun command answer =>
           if bool_decide (picked answer = "m") then modified answer else command)
        full_completion answers.

Definition is_RunCommand (action : Action) : bool :=
  match action with
  | RunCommand _ => true
  | DescribeShell _ => false
  end.

(** ** Facts *)

Lemma read_until_marker_app before rest stdin :
  Forall (fun line => contains eof_marker line = false) before ->
  read_until_marker (before ++ rest) stdin
  = read_until_marker rest (stdin +:+ full_text before).
Proof.
  revert stdin. induction before as [|line before IH]; intros stdin Hbefore.
  - simpl. by rewrite string_app_nil_r.
  - inversion Hbefore as [|? ? Hline Hbefore']; subst. simpl. rewrite Hline.
    rewrite (IH _ Hbefore').
    change (full_text (line :: before)) with (line +:+ full_text before).
    by rewrite string_app_assoc.
Qed.

(** The prompt read from stdin is made of the lines before the first line
    that holds the marker; that line is dropped, and the loop reads none of
    the lines after it. *)
Theorem stdin_prompt_stops_at_marker before marker_line after prompt :
  Forall (fun line => contains eof_marker line = false) before ->
  contains eof_marker marker_line = true ->
  stdin_prompt (before ++ marker_line :: after) prompt
  = (if decide (prompt = EmptyString) then full_text before
     else full_text before +:+ nl +:+ nl +:+ prompt,
     after).
Proof.
  intros Hbefore Hmarker. unfold stdin_prompt.
  rewrite (read_until_marker_app before _ _ Hbefore). simpl. by rewrite Hmarker.
Qed.

Lemma interact_app before rest full_completion :
  forallb goes_on before = true ->
  exists described,
    List.filter is_RunCommand described = []
    /\ interact (before ++ rest) full_completion
       = (described ++ (interact rest (current_command before full_completion)).1,
          (interact rest (current_command before full_completion)).2).
Proof.
  revert full_completion.
  induction before as [|answer before IH]; intros full_completion Hbefore.
  - exists []. simpl. by destruct (interact rest full_completion).
  - simpl in Hbefore. apply andb_prop in Hbefore as [Hanswer Hbefore].
    unfold goes_on in Hanswer. simpl.
    destruct (bool_decide (picked answer = "m")) eqn:Hm.
    + apply bool_decide_eq_true in Hm. rewrite Hm. simpl.
      destruct (IH (modified answer) Hbefore) as (described & Hd & ->).
      by exists described.
    + simpl in Hanswer. apply bool_decide_eq_true in Hanswer. rewrite Hanswer. simpl.
      destruct (IH full_completion Hbefore) as (described & Hd & ->).
      exists (DescribeShell full_completion :: described). simpl. by rewrite Hd.
Qed.

(** The loop runs a command at most once, as its last action, and what it
    runs is the completion as the user's modifications have left it: after
    any number of rounds of modifying and describing, the answer [e] or [y]
    runs the current command and any other answer runs nothing; either ends
    the loop, and later answers are not read. *)
Theorem interaction_runs_latest_command before answer rest full_completion :
  forallb goes_on before = true ->
  goes_on answer = false ->
  let r := interact (before ++ answer :: rest) full_completion in
  r.2 = true
  /\ List.filter is_RunCommand r.1
     = (if bool_decide (picked answer = "e") || bool_decide (picked answer = "y")
        then [RunCommand (current_command before full_completion)] else [])
  /\ (bool_decide (picked answer = "e") || bool_decide (picked answer = "y") = true ->
      last r.1 = Some (RunCommand (current_command before full_completion))).
Proof.
  intros Hbefore Hanswer. cbv zeta.
  destruct (interact_app before (answer :: rest) full_completion Hbefore)
    as (described & Hd & ->).
  unfold goes_on in Hanswer. apply orb_false_elim in Hanswer as [Hm Hdesc].
  simpl. rewrite Hm, Hdesc.
  destruct (bool_decide (picked answer = "e") || bool_decide (picked answer = "y"));
    simpl; rewrite ?List.filter_app, ?Hd, ?app_nil_r; simpl.
  - repeat split; try done. intros _. by rewrite last_snoc.
  - by repeat split.
Qed.

(** *** Witnesses *)

Definition piped_lines : list string :=
  ["hello" +:+ nl; "__sgpt__eof__" +:+ nl; "This is input" +:+ nl].

Lemma stdin_prompt_witness :
  Forall (fun line => contains eof_marker line = false) ["hello" +:+ nl]
  /\ contains eof_marker ("__sgpt__eof__" +:+ nl) = true
  /\ stdin_prompt piped_lines "translate"
     = ("hello" +:+ nl +:+ nl +:+ nl +:+ "translate", ["This is input" +:+ nl]).
Proof.
  assert (Forall (fun line => contains eof_marker line = false) ["hello" +:+ nl]) as Hbefore
    by (by repeat constructor).
  split; [exact Hbefore|]. split; [reflexivity|].
  exact (stdin_prompt_stops_at_marker ["hello" +:+ nl] ("__sgpt__eof__" +:+ nl)
           ["This is input" +:+ nl] "translate" Hbefore eq_refl).
Defined.

Definition pick (option : string) : Answer :=
  {| picked := option; modified := EmptyString |}.

Definition modify (command : string) : Answer :=
  {| picked := "m"; modified := command |}.

Lemma interaction_witness :
  forallb goes_on [pick "d"; modify "ls -la"; pick "d"] = true
  /\ goes_on (pick "e") = false
  /\ (let r := interact ([pick "d"; modify "ls -la"; pick "d"] ++ pick "e" :: [pick "e"]) "ls" in
      r.1 = [DescribeShell "ls"; DescribeShell "ls -la"; RunCommand "ls -la"]
      /\ List.filter is_RunCommand r.1 = [RunCommand "ls -la"]).
Proof.
  split; [reflexivity|]. split; [reflexivity|]. split; [reflexivity|].
  exact (proj1 (proj2 (interaction_runs_latest_command
                         [pick "d"; modify "ls -la"; pick "d"] (pick "e") [pick "e"] "ls"
                         eq_refl eq_refl))).
Defined.

End App.
